(** * Insta_automation: a shallow embedding of the reel-posting pipeline

    The first half of the file is the program, one module per source
    file:

    - [Py]                  the fragment of Python's data model the code
                            uses: strings as lists of code points,
                            [str.split], [str.join], [str.rsplit], slices,
                            exceptions, and the state of the process;
    - [Runtime]             the calls that leave the repository (network,
                            Instagram client, file system, clock) and the
                            state-and-exception monad of the methods;
    - [utils]               [retry], [cleanup_temp_files],
                            [get_file_size_mb], [validate_video_file];
    - [config]              the constants of [Config] and [validate];
    - [content_generator]   the cached content sources,
                            [generate_caption], [get_content_for_reel];
    - [reel_generator]      [_wrap_text];
    - [instagram_bot]       [login], [_ensure_login], [post_reel],
                            [get_profile_pic], [is_logged_in];
    - [scheduler]           [_initialize_components], [post_daily_reel];
    - [reel_frame]          the text overlay of [create_reel_frame];
    - [instagram_session]   [logout];
    - [spec]                the vocabulary of the statements;
    - [fixtures]            concrete worlds and inputs.

    The second half holds the proofs, in modules named after the source
    they are about: first the facts about each source file and the
    embedding run on concrete inputs, then further properties of the same
    code ([wrap_text_more], [utils_more], [content_more],
    [instagram_bot_more], [scheduler_more], [reel_frame_more]) and the
    bound on the uploads of a run ([upload_bound]).

    Python floats are modelled by exact rationals ([Qc]).  The floats the
    modelled code computes are quotients of file sizes by 2^20, which are
    exact in binary floating point for sizes below 2^53, and the delays of
    the retry decorator. *)

From Stdlib Require Import QArith Qcanon Sorted.
From stdpp Require Import gmap strings list fin_maps.

(* ===================================================================== *)
(** * Python values *)
(* ===================================================================== *)

Module Py.

(** A Python [str] is a sequence of Unicode code points; [len] counts code
    points, so the model is a list of code points and not a list of bytes. *)
Definition char := N.
Definition str := list char.

(** ASCII literals of the source text. *)
Definition lit (s : string) : str :=
  map Ascii.N_of_ascii (String.list_ascii_of_string s).

Definition SPACE : char := 32%N.
Definition NEWLINE : char := 10%N.
Definition LT : char := 60%N.
Definition GT : char := 62%N.

(** [str.isspace] on one code point, the test [str.split()] uses to find
    word boundaries (Unicode bidirectional classes WS, B, S and category
    Zs). *)
Definition Py_UNICODE_ISSPACE (c : char) : bool :=
  ((9 <=? c) && (c <=? 13) || (28 <=? c) && (c <=? 32)
   || (c =? 133) || (c =? 160) || (c =? 5760)
   || (8192 <=? c) && (c <=? 8202)
   || (c =? 8232) || (c =? 8233) || (c =? 8239) || (c =? 8287)
   || (c =? 12288))%N.

(** [text.split()]: split on runs of whitespace, no empty words.  [cur] is
    the word being scanned. *)
Fixpoint split_from (cur : str) (s : str) : list str :=
  match s with
  | [] => match cur with [] => [] | _ => [cur] end
  | c :: s' =>
      if Py_UNICODE_ISSPACE c
      then match cur with
           | [] => split_from [] s'
           | _ => cur :: split_from [] s'
           end
      else split_from (cur ++ [c]) s'
  end.

Definition split (s : str) : list str := split_from [] s.

(** [sep.join(parts)]. *)
Fixpoint join (sep : str) (parts : list str) : str :=
  match parts with
  | [] => []
  | [x] => x
  | x :: rest => x ++ sep ++ join sep rest
  end.

(** [s.rsplit(sep, 1)] for a one-character separator: cut at the last
    occurrence of [sep], or return [[s]] when there is none. *)
Fixpoint rcut (sep : char) (s : str) : option (str * str) :=
  match s with
  | [] => None
  | c :: s' =>
      match rcut sep s' with
      | Some (a, b) => Some (c :: a, b)
      | None => if (c =? sep)%N then Some ([], s') else None
      end
  end.

Definition rsplit1 (sep : char) (s : str) : list str :=
  match rcut sep s with
  | Some (a, b) => [a; b]
  | None => [s]
  end.

(** [c in s]. *)
Definition contains (c : char) (s : str) : bool := existsb (N.eqb c) s.

(** A word in the sense of [split]: non-empty, without whitespace. *)
Definition is_word (w : str) : Prop :=
  w <> [] /\ Forall (fun c => Py_UNICODE_ISSPACE c = false) w.

(** [s[:n]] and [l[k:]] for an [int] bound: a negative bound counts from
    the end. *)
Definition slice_to {A} (n : Z) (l : list A) : list A :=
  if (0 <=? n)%Z then take (Z.to_nat n) l
  else take (length l - Z.to_nat (- n)) l.

Definition slice_from {A} (k : Z) (l : list A) : list A :=
  if (0 <=? k)%Z then drop (Z.to_nat k) l
  else drop (length l - Z.to_nat (- k)) l.

(** ** Exceptions

    The classes the repository raises or names in an [except] clause.
    [KeyboardInterrupt] and [SystemExit] derive from [BaseException] only;
    every other class derives from [Exception]. *)
Inductive exn_class : Type :=
| KeyboardInterrupt
| SystemExit
| Exception
| ValueError
| KeyError
| AttributeError
| OSError
| FileNotFoundError
| RequestException
| ChallengeRequired
| LoginRequired
| PleaseWaitFewMinutes.

Record exn : Type := mk_exn { exn_cls : exn_class; exn_msg : string }.

(** [isinstance(e, Exception)]. *)
Definition is_Exception (e : exn) : bool :=
  match exn_cls e with
  | KeyboardInterrupt | SystemExit => false
  | _ => true
  end.

Definition is_KeyboardInterrupt (e : exn) : bool :=
  match exn_cls e with
  | KeyboardInterrupt => true
  | _ => false
  end.

(** [isinstance(e, requests.exceptions.RequestException)]. *)
Definition is_RequestException (e : exn) : bool :=
  match exn_cls e with
  | RequestException => true
  | _ => false
  end.

Inductive result (A : Type) : Type :=
| Return (a : A)
| Raise (e : exn).
Arguments Return {A} a.
Arguments Raise {A} e.

(** ** What the process does to the outside: the trace *)

Inductive level : Type := DEBUG | INFO | WARNING | ERROR.

(** Calls into third-party libraries and the operating system. *)
Inductive ext_call : Type :=
| OsRemove (path : string)
| SessionGet
| FeedparserParse
| ClientLoadSettings (path : string)
| ClientAccountInfo
| ClientLogin (username password : string)
| ClientDumpSettings (path : string)
| ClientClipUpload (video_path : string) (caption : str)
| FetchProfilePic (save_path : string)
| SavePlaceholder (path : string)
| NewClient
| NewSession
| NewReelGenerator
| GenerateReel.

Inductive event : Type :=
| Log (lv : level) (msg : string) (exc : option exn)
| Sleep (seconds : Qc)
| Call (c : ext_call).

(** The media object [clip_upload] returns; only its [id] is read. *)
Record Media : Type := mk_media { media_id : string }.

(** ** The state of the process and of the world around it

    [ext] is everything outside the process (the network, the Instagram
    service, the file system, the clock); the other fields are the
    attributes of the objects the scheduler owns. *)
Record World (X : Type) : Type := mkWorld {
  ext : X;
  trace : list event;
  bot_is_logged_in : bool;
  cg_cache : gmap string (gmap string str * Z);
  sched_bot : bool;
  sched_content_gen : bool;
  sched_reel_gen : bool
}.
Arguments mkWorld {X}.
Arguments ext {X}.
Arguments trace {X}.
Arguments bot_is_logged_in {X}.
Arguments cg_cache {X}.
Arguments sched_bot {X}.
Arguments sched_content_gen {X}.
Arguments sched_reel_gen {X}.

End Py.

Import Py.

(* ===================================================================== *)
(** * The runtime: external calls and the state-and-exception monad *)
(* ===================================================================== *)

Module Runtime.

(** Everything the repository calls but does not define.  An operation
    takes the state of the outside world and returns an outcome and the
    next state, so its behaviour may change from one call to the next.
    [files] is the file system as [os.path.exists] and [os.path.getsize]
    see it: the size in bytes of every path that exists.  [session_get]
    stands for [session.get(...)], [raise_for_status()] and [json()]
    together; the fields of the JSON object and of a feed entry are
    strings.  [fetch_profile_pic] is the part of [get_profile_pic] that
    talks to the service and writes the picture, [save_placeholder] the
    PIL calls that write a plain picture, [new_client] the [Client()] of
    instagrapi that the constructor of [InstagramBot] calls, [new_session]
    the [requests.Session()] that the constructor of [ContentGenerator]
    builds and configures, [new_reel_generator] the constructor of
    [ReelGenerator] and [reel_gen_generate_reel] its rendering method. *)
Record External (X : Type) : Type := mkExternal {
  files : X -> gmap string Z;
  os_remove : string -> X -> result unit * X;
  datetime_now : X -> Z * X;
  strftime_ymd : Z -> string;
  time_sleep : Qc -> X -> X;
  session_get : X -> result (gmap string str) * X;
  feedparser_parse : X -> result (list (gmap string str)) * X;
  client_load_settings : string -> X -> result unit * X;
  client_account_info : X -> result unit * X;
  client_login : string -> string -> X -> result unit * X;
  client_dump_settings : string -> X -> result unit * X;
  client_clip_upload : string -> str -> X -> result Media * X;
  fetch_profile_pic : string -> X -> result (option string) * X;
  save_placeholder : string -> X -> result unit * X;
  new_client : X -> result unit * X;
  new_session : X -> result unit * X;
  new_reel_generator : X -> result unit * X;
  reel_gen_generate_reel :
    gmap string (option str) -> Z -> X -> result string * X
}.
Arguments files {X}.
Arguments os_remove {X}.
Arguments datetime_now {X}.
Arguments strftime_ymd {X}.
Arguments time_sleep {X}.
Arguments session_get {X}.
Arguments feedparser_parse {X}.
Arguments client_load_settings {X}.
Arguments client_account_info {X}.
Arguments client_login {X}.
Arguments client_dump_settings {X}.
Arguments client_clip_upload {X}.
Arguments fetch_profile_pic {X}.
Arguments save_placeholder {X}.
Arguments new_client {X}.
Arguments new_session {X}.
Arguments new_reel_generator {X}.
Arguments reel_gen_generate_reel {X}.

(** A computation: it reads and updates the world and returns a value or
    raises.  What it did before it raised stays done. *)
Definition M (X A : Type) : Type := World X -> result A * World X.

Definition ret {X A} (a : A) : M X A := fun w => (Return a, w).

Definition bind {X A B} (m : M X A) (f : A -> M X B) : M X B :=
  fun w =>
    match m w with
    | (Return a, w') => f a w'
    | (Raise e, w') => (Raise e, w')
    end.

#[global] Instance M_ret {X} : MRet (M X) := fun A a => ret a.
#[global] Instance M_bind {X} : MBind (M X) := fun A B f m => bind m f.

Definition raise {X A} (e : exn) : M X A := fun w => (Raise e, w).

(** [try: m / except <P> as e: ...]: the outcome of [m] with the exceptions
    the clause matches turned into values; any other exception goes on. *)
Definition catching {X A} (P : exn -> bool) (m : M X A) : M X (A + exn) :=
  fun w =>
    match m w with
    | (Return a, w') => (Return (inl a), w')
    | (Raise e, w') => if P e then (Return (inr e), w') else (Raise e, w')
    end.

(** State updates. *)
Definition with_ext {X} (x : X) (w : World X) : World X :=
  mkWorld x (trace w) (bot_is_logged_in w) (cg_cache w)
          (sched_bot w) (sched_content_gen w) (sched_reel_gen w).

Definition emit {X} (ev : event) (w : World X) : World X :=
  mkWorld (ext w) (trace w ++ [ev]) (bot_is_logged_in w) (cg_cache w)
          (sched_bot w) (sched_content_gen w) (sched_reel_gen w).

Definition with_logged_in {X} (b : bool) (w : World X) : World X :=
  mkWorld (ext w) (trace w) b (cg_cache w)
          (sched_bot w) (sched_content_gen w) (sched_reel_gen w).

Definition with_cache {X} (c : gmap string (gmap string str * Z))
    (w : World X) : World X :=
  mkWorld (ext w) (trace w) (bot_is_logged_in w) c
          (sched_bot w) (sched_content_gen w) (sched_reel_gen w).

Definition with_components {X} (bot cg rg : bool) (w : World X) : World X :=
  mkWorld (ext w) (trace w) (bot_is_logged_in w) (cg_cache w) bot cg rg.

Definition get {X A} (f : World X -> A) : M X A := fun w => (Return (f w), w).
Definition modify {X} (f : World X -> World X) : M X unit :=
  fun w => (Return tt, f w).

(** [logger.<level>(msg)]; [exc] is the exception the message formats. *)
Definition logger {X} (lv : level) (msg : string) (exc : option exn)
    : M X unit :=
  modify (emit (Log lv msg exc)).

(** A call that leaves the process: recorded, then answered by the world. *)
Definition extcall {X A} (c : ext_call) (op : X -> result A * X) : M X A :=
  fun w =>
    let '(r, x') := op (ext w) in
    (r, with_ext x' (emit (Call c) w)).

Section Primitives.
Context {X : Type} (E : External X).

Definition sleep (seconds : Qc) : M X unit :=
  fun w => (Return tt, with_ext (time_sleep E seconds (ext w))
                                (emit (Sleep seconds) w)).

Definition now : M X Z :=
  fun w => let '(t, x') := datetime_now E (ext w) in (Return t, with_ext x' w).

Definition os_path_exists (path : string) : M X bool :=
  get (fun w => bool_decide (is_Some (files E (ext w) !! path))).

Definition os_path_getsize (path : string) : M X Z :=
  fun w =>
    match files E (ext w) !! path with
    | Some size => (Return size, w)
    | None => (Raise (mk_exn FileNotFoundError "No such file or directory"), w)
    end.

End Primitives.

End Runtime.

Import Runtime.

(* ===================================================================== *)
(** * src/utils.py *)
(* ===================================================================== *)

Module utils.

Section WithExternal.
Context {X : Type} (E : External X).

(** The [while attempt < max_attempts] loop of [wrapper].  [fuel] bounds
    the number of iterations; [retry] supplies [max_attempts] of it, which
    the loop never exhausts before its own test fails
    ([retry_loop_fuel_irrelevant]).  The result is [None] when the loop is
    left by its test, which is the [return None] after it. *)
Fixpoint retry_loop {A} (fuel : nat) (max_attempts : Z) (backoff : Qc)
    (func : M X A) (attempt : Z) (current_delay : Qc) : M X (option A) :=
  match fuel with
  | O => mret None
  | S fuel' =>
      if (attempt <? max_attempts)%Z then
        r ← catching is_Exception func;
        match r with
        | inl v => mret (Some v)
        | inr e =>
            let attempt := (attempt + 1)%Z in
            if (attempt >=? max_attempts)%Z then
              logger ERROR "failed after max_attempts attempts" (Some e);;
              raise e
            else
              logger WARNING "failed, retrying" (Some e);;
              sleep E current_delay;;
              let current_delay := (current_delay * backoff)%Qc in
              retry_loop fuel' max_attempts backoff func attempt current_delay
        end
      else mret None
  end.

(** [retry(max_attempts, delay, backoff)(func)]. *)
Definition retry {A} (max_attempts : Z) (delay backoff : Qc)
    (func : M X A) : M X (option A) :=
  retry_loop (Z.to_nat max_attempts) max_attempts backoff func 0%Z delay.

(** The defaults of the decorator. *)
Definition default_backoff : Qc := Qc_of_Z 2.

(** [get_file_size_mb]: [size_bytes / (1024 * 1024)], or [0.0] when
    [os.path.getsize] raises.  The quotient of an integer below 2^53 by
    2^20 is exact in binary floating point. *)
Definition get_file_size_mb (file_path : string) : M X Qc :=
  r ← catching is_Exception (os_path_getsize E file_path);
  match r with
  | inl size_bytes => mret (Qc_of_Z size_bytes / Qc_of_Z (1024 * 1024))%Qc
  | inr _ => mret 0%Qc
  end.

Definition validate_video_file (file_path : string) (min_size_mb : Qc)
    : M X bool :=
  e ← os_path_exists E file_path;
  if negb e then mret false
  else
    size_mb ← get_file_size_mb file_path;
    if bool_decide (size_mb < min_size_mb)%Qc then
      logger WARNING "Video file too small" None;;
      mret false
    else mret true.

(** The default [min_size_mb = 0.1].  The double nearest to 0.1 exceeds
    1/10 by less than 2^-58, so it separates the sizes [n / 2^20] exactly
    as 1/10 does. *)
Definition default_min_size_mb : Qc := (1 / Qc_of_Z 10)%Qc.

End WithExternal.

(** ** [cleanup_temp_files]

    The state of the directory is the list of the files and directories
    below it, in the order [glob] yields them, or [None] when the
    directory does not exist.  An entry is named by its path below the
    directory, so an entry of a sub-directory [sub] is named [sub/...].
    The modification time of an entry is part of the state, not of the
    entry: the file system sets the modification time of a directory to
    the time of the call whenever a file is unlinked in it.  Symbolic
    links are not modelled. *)
Record dir_entry : Type := mk_entry {
  name : string;
  (** [p.stat().st_mtime]; [None] when [stat] raises. *)
  st_mtime : option Z;
  (** whether [p.unlink()] succeeds (it raises on a directory). *)
  unlink_ok : bool
}.

#[global] Instance dir_entry_eq_dec : EqDecision dir_entry.
Proof. solve_decision. Defined.

(** [sorted(xs, key=key, reverse=True)]: descending and stable, elements
    with equal keys keep their order. *)
Fixpoint insert_desc {A} (key : A -> Z) (x : A) (l : list A) : list A :=
  match l with
  | [] => [x]
  | y :: l' =>
      if (key x <? key y)%Z then y :: insert_desc key x l' else x :: l
  end.

Definition sorted_reverse {A} (key : A -> Z) (l : list A) : list A :=
  foldr (insert_desc key) [] l.

(** The sort key [p.stat().st_mtime].  [sorted] computes the key of every
    element before it sorts, so one failing [stat] makes the call raise. *)
Definition stat_ok (e : dir_entry) : bool :=
  match st_mtime e with
  | Some _ => true
  | None => false
  end.

Definition mtime (e : dir_entry) : Z := default 0%Z (st_mtime e).

(** The path separator ['/'] (code 47). *)
Definition SLASH : Ascii.ascii := Ascii.ascii_of_nat 47.

(** The directory a path lies in: the part of the path before its last
    ['/'], and [None] for an entry of the cleaned directory itself. *)
Fixpoint parent_of (path : string) : option string :=
  match path with
  | EmptyString => None
  | String c rest =>
      match parent_of rest with
      | Some p => Some (String c p)
      | None => if Ascii.eqb c SLASH then Some EmptyString else None
      end
  end.

(** What unlinking a file of the directory [dir] at time [t] does to
    another entry [e]: [dir] itself gets [t] as its modification time. *)
Definition touch (dir : option string) (t : Z) (e : dir_entry)
    : dir_entry :=
  if bool_decide (dir = Some (name e))
  then mk_entry (name e) ((fun _ => t) <$> st_mtime e) (unlink_ok e)
  else e.

Section Cleanup.
(** [fnmatch pattern name]: whether [glob(pattern)] yields the entry. *)
Variable fnmatch : string -> string -> bool.
(** The reading of the clock when the file of that name is unlinked. *)
Variable unlink_time : string -> Z.

(** One iteration of [for file in files[keep_recent:]]. *)
Definition unlink_step (st : list dir_entry * list event)
    (file : dir_entry) : list dir_entry * list event :=
  let '(entries, log) := st in
  if unlink_ok file then
    (touch (parent_of (name file)) (unlink_time (name file))
       <$> filter (fun e => name e <> name file) entries,
     log ++ [Log DEBUG "Cleaned up old file" None])
  else
    (entries,
     log ++ [Log WARNING "Failed to delete"
                 (Some (mk_exn OSError "unlink"))]).

Definition glob (pattern : string) (entries : list dir_entry)
    : list dir_entry :=
  filter (fun e => fnmatch pattern (name e) = true) entries.

Definition cleanup_temp_files (dir : option (list dir_entry))
    (pattern : string) (keep_recent : Z)
    : option (list dir_entry) * list event :=
  match dir with
  | None => (None, [])
  | Some entries =>
      if forallb stat_ok (glob pattern entries) then
        let files := sorted_reverse mtime (glob pattern entries) in
        let '(entries', log) :=
          foldl unlink_step (entries, []) (slice_from keep_recent files) in
        (Some entries', log)
      else
        (Some entries,
         [Log WARNING "Error during cleanup"
              (Some (mk_exn FileNotFoundError "stat"))])
  end.

End Cleanup.

End utils.

(* ===================================================================== *)
(** * src/config.py *)
(* ===================================================================== *)

Module config.

Definition BASE_HASHTAGS : list str :=
  [lit "#space"; lit "#astronomy"; lit "#nasa"; lit "#spacex";
   lit "#universe"; lit "#cosmos"; lit "#astrophysics";
   lit "#spaceexploration"; lit "#ventureuniverse"; lit "#spacenews";
   lit "#science"; lit "#galaxy"; lit "#stars"; lit "#spacefacts"].

Definition REEL_DURATION : Z := 15.

(** [Config.USE_LOGO] and [Config.LOGO_PATH].  The class defines neither
    attribute, so reading one raises. *)
Definition USE_LOGO {X} : M X bool :=
  raise (mk_exn AttributeError
           "type object 'Config' has no attribute 'USE_LOGO'").

Definition LOGO_PATH {X} : M X string :=
  raise (mk_exn AttributeError
           "type object 'Config' has no attribute 'LOGO_PATH'").

(** [Config.validate], on the two credentials read from the environment. *)
Definition validate {X} (INSTAGRAM_USERNAME INSTAGRAM_PASSWORD : string)
    : M X bool :=
  if bool_decide (INSTAGRAM_USERNAME = EmptyString)
     || bool_decide (INSTAGRAM_PASSWORD = EmptyString)
  then raise (mk_exn ValueError
                "Instagram credentials must be set in .env file")
  else mret true.

End config.

(* ===================================================================== *)
(** * src/content_generator.py *)
(* ===================================================================== *)

Module content_generator.

(** The characters of the source that are outside ASCII. *)
Definition ROCKET : char := 128640%N.
Definition MILKY_WAY : char := 127756%N.
Definition SPARKLES : char := 10024%N.

(** Truth value of an [Optional[Dict]]: [None] and [{}] are false. *)
Definition truthy (o : option (gmap string str)) : bool :=
  match o with
  | Some d => negb (bool_decide (d = ∅))
  | None => false
  end.

(** [d.get(key, default)] and [d[key]]. *)
Definition dict_get (d : gmap string str) (key : string) (dflt : str) : str :=
  default dflt (d !! key).

Definition getitem {X} (d : gmap string str) (key : string) : M X str :=
  match d !! key with
  | Some v => mret v
  | None => raise (mk_exn KeyError key)
  end.

(** [re.sub('<[^<]+?>', '', s)].  A match starts at a ['<'], takes one
    character other than ['<'] and then as few as possible, none of them
    ['<'], up to a ['>'].  [tag_end s] is the number of characters of [s]
    that such a match takes after its ['<']. *)
Fixpoint tag_close (s : str) : option nat :=
  match s with
  | [] => None
  | c :: s' =>
      if (c =? GT)%N then Some 1
      else if (c =? LT)%N then None
      else S <$> tag_close s'
  end.

Definition tag_end (s : str) : option nat :=
  match s with
  | [] => None
  | c :: s' => if (c =? LT)%N then None else S <$> tag_close s'
  end.

Fixpoint strip_tags_from (skip : nat) (s : str) : str :=
  match s with
  | [] => []
  | c :: s' =>
      match skip with
      | S k => strip_tags_from k s'
      | O =>
          if (c =? LT)%N then
            match tag_end s' with
            | Some n => strip_tags_from n s'
            | None => c :: strip_tags_from 0 s'
            end
          else c :: strip_tags_from 0 s'
      end
  end.

Definition re_sub_tags (s : str) : str := strip_tags_from 0 s.

(** [l[0]] of the list [rsplit] returns, which is never empty. *)
Definition first (l : list str) : str :=
  match l with
  | x :: _ => x
  | [] => []
  end.

(** Lines 148-151 of [generate_caption]: the truncation step. *)
Definition max_caption_length : Z := 2000.

Definition truncate_explanation (explanation : str) : str :=
  if (Z.of_nat (length explanation) >? max_caption_length)%Z then
    first (rsplit1 SPACE (slice_to max_caption_length explanation))
      ++ lit "..."
  else explanation.

(** The value [generate_caption] returns. *)
Record caption_data : Type := mk_caption_data {
  caption : str;
  content : gmap string str;
  content_type : string
}.

(** The [description] entry of [get_content_for_reel]:
    [text[:150] + "..." if len(text) > 150 else text]. *)
Definition describe (text : str) : str :=
  if (Z.of_nat (length text) >? 150)%Z then slice_to 150 text ++ lit "..."
  else text.

Section ContentGenerator.
Context {X : Type} (E : External X).
(** [self.cache_ttl], in seconds. *)
Variable cache_ttl : Z.

Definition _get_cached (key : string) : M X (option (gmap string str)) :=
  c ← get cg_cache;
  match c !! key with
  | Some (value, timestamp) =>
      t ← now E;
      if (t - timestamp <? cache_ttl)%Z then mret (Some value)
      else
        modify (fun w => with_cache (delete key (cg_cache w)) w);;
        mret None
  | None => mret None
  end.

Definition _set_cache (key : string) (value : gmap string str) : M X unit :=
  t ← now E;
  modify (fun w => with_cache (<[key := (value, t)]> (cg_cache w)) w).

(** The body of [get_nasa_apod], under its decorator. *)
Definition get_nasa_apod_body : M X (option (gmap string str)) :=
  t ← now E;
  let cache_key := "nasa_apod_" +:+ strftime_ymd E t in
  cached ← _get_cached cache_key;
  if truthy cached then
    logger DEBUG "Returning cached NASA APOD" None;;
    mret cached
  else
    r ← catching is_Exception (
          data ← extcall SessionGet (session_get E);
          today ← now E;
          let result : gmap string str :=
            list_to_map
              [("title", dict_get data "title" (lit "Space Discovery"));
               ("explanation", dict_get data "explanation" []);
               ("image_url", dict_get data "url" []);
               ("date", dict_get data "date"
                          (lit (strftime_ymd E today)))] in
          _set_cache cache_key result;;
          logger INFO "Fetched NASA APOD" None;;
          mret (Some result));
    match r with
    | inl v => mret v
    | inr e =>
        if is_RequestException e then
          logger ERROR "Error fetching NASA APOD" (Some e);;
          mret None
        else
          logger ERROR "Unexpected error fetching NASA APOD" (Some e);;
          mret None
    end.

(** [@retry(max_attempts=3, delay=2.0)]. *)
Definition get_nasa_apod : M X (option (gmap string str)) :=
  r ← utils.retry E 3 (Qc_of_Z 2) utils.default_backoff get_nasa_apod_body;
  mret (mjoin r).

Definition get_trending_space_news_body : M X (option (gmap string str)) :=
  let cache_key := "space_news" in
  cached ← _get_cached cache_key;
  if truthy cached then
    logger DEBUG "Returning cached space news" None;;
    mret cached
  else
    r ← catching is_Exception (
          entries ← extcall FeedparserParse (feedparser_parse E);
          match entries with
          | article :: _ =>
              let result : gmap string str :=
                list_to_map
                  [("title", dict_get article "title" (lit "Space News"));
                   ("summary", dict_get article "summary" []);
                   ("link", dict_get article "link" [])] in
              _set_cache cache_key result;;
              logger INFO "Fetched space news" None;;
              mret (Some result)
          | [] =>
              logger WARNING "No entries found in space news feed" None;;
              mret None
          end);
    match r with
    | inl v => mret v
    | inr e =>
        logger ERROR "Error fetching space news" (Some e);;
        mret None
    end.

(** [@retry(max_attempts=2, delay=2.0)]. *)
Definition get_trending_space_news : M X (option (gmap string str)) :=
  r ← utils.retry E 2 (Qc_of_Z 2) utils.default_backoff
        get_trending_space_news_body;
  mret (mjoin r).

(** The hard-coded content of [generate_caption]. *)
Definition fallback_content (today : string) : gmap string str :=
  list_to_map
    [("title", lit "Amazing Space Discovery");
     ("explanation",
      lit "The universe is full of wonders waiting to be discovered! "
        ++ [MILKY_WAY; SPARKLES]);
     ("date", lit today)].

(** Lines 141-163: the caption text built from the chosen content. *)
Definition build_caption (content : gmap string str) : str :=
  let explanation :=
    dict_get content "explanation" (dict_get content "summary" []) in
  let explanation :=
    if contains LT explanation then re_sub_tags explanation
    else explanation in
  let explanation := truncate_explanation explanation in
  let caption_parts :=
    [[ROCKET; SPACE] ++ dict_get content "title" (lit "Space Update");
     [];
     explanation;
     [];
     lit "Follow @ventureuniverse for daily space updates! "
       ++ [MILKY_WAY; SPARKLES];
     [];
     join [SPACE] (slice_to 10 config.BASE_HASHTAGS)] in
  join [NEWLINE] caption_parts.

Definition generate_caption (content_type : string) : M X caption_data :=
  '(content, content_type) ←
    (if bool_decide (content_type = "apod") then
       content ← get_nasa_apod;
       if negb (truthy content) then
         content ← get_trending_space_news;
         mret (content, "news")
       else mret (content, content_type)
     else
       content ← get_trending_space_news;
       if negb (truthy content) then
         content ← get_nasa_apod;
         mret (content, "apod")
       else mret (content, content_type));
  content ←
    (if negb (truthy content) then
       logger WARNING "All content sources failed, using fallback" None;;
       today ← now E;
       mret (fallback_content (strftime_ymd E today))
     else mret (default ∅ content));
  mret (mk_caption_data (build_caption content) content content_type).

Definition truthy_str (o : option str) : bool :=
  match o with
  | Some (_ :: _) => true
  | _ => false
  end.

Definition get_content_for_reel : M X (gmap string (option str)) :=
  apod ← get_nasa_apod;
  if truthy apod && truthy_str (default ∅ apod !! "image_url") then
    let apod := default ∅ apod in
    title ← getitem apod "title";
    text ← getitem apod "title";
    image_url ← getitem apod "image_url";
    mret (list_to_map
            [("type", Some (lit "apod"));
             ("title", Some title);
             ("text", Some text);
             ("image_url", Some image_url);
             ("description",
              Some (describe (dict_get apod "explanation" [])))])
  else
    news ← get_trending_space_news;
    if truthy news then
      let news := default ∅ news in
      title ← getitem news "title";
      text ← getitem news "title";
      mret (list_to_map
              [("type", Some (lit "news"));
               ("title", Some title);
               ("text", Some text);
               ("image_url", None);
               ("description",
                Some (describe (dict_get news "summary" [])))])
    else
      logger WARNING "Using default fallback content" None;;
      mret (list_to_map
              [("type", Some (lit "default"));
               ("title", Some (lit "Space Discovery"));
               ("text", Some (lit "Exploring the Universe"));
               ("image_url", None);
               ("description", Some (lit "The cosmos awaits!"))]).

End ContentGenerator.

End content_generator.

(* ===================================================================== *)
(** * src/reel_generator.py *)
(* ===================================================================== *)

Module reel_generator.

Section WrapText.
(** PIL is outside the repository: [ImageDraw.textbbox] is any function
    from a font and a line to a bounding box (left, top, right, bottom). *)
Variable Font : Type.
Variable textbbox : Font -> str -> Z * Z * Z * Z.

Definition bbox_width (bbox : Z * Z * Z * Z) : Z :=
  let '(x0, _, x2, _) := bbox in (x2 - x0)%Z.

(** The measured width of a line, as [_wrap_text] computes it. *)
Definition text_width (font : Font) (line : str) : Z :=
  bbox_width (textbbox font line).

(** One iteration of [for word in words], on [(lines, current_line)]. *)
Definition wrap_step (font : Font) (max_width : Z)
    (st : list str * list str) (word : str) : list str * list str :=
  let '(lines, current_line) := st in
  let test_line := join [SPACE] (current_line ++ [word]) in
  let bbox := textbbox font test_line in
  let test_width := bbox_width bbox in
  if (test_width <=? max_width)%Z
  then (lines, current_line ++ [word])
  else ((match current_line with
         | [] => lines
         | _ => lines ++ [join [SPACE] current_line]
         end), [word]).

Definition _wrap_text (text : str) (font : Font) (max_width : Z)
    : list str :=
  let words := split text in
  match words with
  | [] => []
  | _ =>
      let '(lines, current_line) :=
        foldl (wrap_step font max_width) ([], []) words in
      match current_line with
      | [] => lines
      | _ => lines ++ [join [SPACE] current_line]
      end
  end.

End WrapText.

End reel_generator.

(* ===================================================================== *)
(** * src/instagram_bot.py *)
(* ===================================================================== *)

Module instagram_bot.

Section InstagramBot.
Context {X : Type} (E : External X).
(** The attributes set by the constructor. *)
Variables (username password session_file : string).

(** The body of [login], under its decorator.  The inner block yields
    [Some true] where the source returns from inside it and [None] where
    control falls through to the fresh login. *)
Definition login_body : M X bool :=
  r ← catching is_Exception (
        e ← os_path_exists E session_file;
        early ←
          (if (e : bool) then
             r ← catching is_Exception (
                   extcall (ClientLoadSettings session_file)
                           (client_load_settings E session_file);;
                   extcall ClientAccountInfo (client_account_info E);;
                   logger INFO "Logged in using saved session" None;;
                   modify (with_logged_in true);;
                   mret true);
             match r with
             | inl b => mret (Some b)
             | inr e =>
                 logger WARNING "Session invalid, attempting fresh login"
                        (Some e);;
                 catching (fun _ => true)
                          (extcall (OsRemove session_file)
                                   (os_remove E session_file));;
                 mret None
             end
           else mret None);
        match early with
        | Some b => mret b
        | None =>
            logger INFO "Logging in to Instagram..." None;;
            extcall (ClientLogin username password)
                    (client_login E username password);;
            extcall (ClientDumpSettings session_file)
                    (client_dump_settings E session_file);;
            logger INFO "Login successful!" None;;
            modify (with_logged_in true);;
            mret true
        end);
  match r with
  | inl b => mret b
  | inr e =>
      match exn_cls e with
      | ChallengeRequired =>
          logger ERROR "Challenge required!" None;;
          logger ERROR "You may need to log in manually once" None;;
          modify (with_logged_in false);;
          mret false
      | LoginRequired =>
          logger ERROR "Login required. Please check your credentials." None;;
          modify (with_logged_in false);;
          mret false
      | PleaseWaitFewMinutes =>
          logger ERROR "Rate limited" (Some e);;
          modify (with_logged_in false);;
          mret false
      | _ =>
          logger ERROR "Login error" (Some e);;
          modify (with_logged_in false);;
          mret false
      end
  end.

(** [@retry(max_attempts=3, delay=2.0)]; a [None] from the decorator is as
    false as [False] to every caller. *)
Definition login : M X bool :=
  r ← utils.retry E 3 (Qc_of_Z 2) utils.default_backoff login_body;
  mret (default false r).

(** [with self._ensure_login(): body]. *)
Definition _ensure_login {A} (body : M X A) : M X A :=
  flag ← get bot_is_logged_in;
  (if negb flag then
     ok ← login;
     if negb ok then raise (mk_exn Exception "Failed to login to Instagram")
     else mret tt
   else mret tt);;
  body.

(** The block under [with] in [post_reel]. *)
Definition upload_block (video_path : string) (caption : str) : M X Media :=
  e ← os_path_exists E video_path;
  if negb e then
    raise (mk_exn FileNotFoundError "Video file not found")
  else
    size ← os_path_getsize E video_path;
    let file_size_mb := (Qc_of_Z size / Qc_of_Z (1024 * 1024))%Qc in
    if bool_decide (Qc_of_Z 100 < file_size_mb)%Qc then
      raise (mk_exn ValueError "Video file too large (max 100MB)")
    else
      logger INFO "Uploading reel" None;;
      logger DEBUG "Caption preview" None;;
      r ← catching is_Exception (
            media ← extcall (ClientClipUpload video_path caption)
                            (client_clip_upload E video_path caption);
            logger INFO "Reel posted successfully!" None;;
            mret media);
      match r with
      | inl media => mret media
      | inr e =>
          match exn_cls e with
          | PleaseWaitFewMinutes =>
              logger ERROR "Rate limited" (Some e);;
              raise e
          | _ =>
              logger ERROR "Error posting reel" (Some e);;
              raise e
          end
      end.

Definition post_reel_body (video_path : string) (caption : str)
    : M X Media :=
  _ensure_login (upload_block video_path caption).

(** [@retry(max_attempts=2, delay=5.0)]. *)
Definition post_reel (video_path : string) (caption : str)
    : M X (option Media) :=
  utils.retry E 2 (Qc_of_Z 5) utils.default_backoff
              (post_reel_body video_path caption).

Definition get_profile_pic_body (save_path : string)
    : M X (option string) :=
  _ensure_login (
    r ← catching is_Exception (
          saved ← extcall (FetchProfilePic save_path)
                          (fetch_profile_pic E save_path);
          match saved with
          | Some path => logger INFO "Profile picture saved" None;; mret saved
          | None =>
              logger WARNING "Could not retrieve profile picture URL" None;;
              mret None
          end);
    match r with
    | inl v => mret v
    | inr e => logger ERROR "Error getting profile picture" (Some e);; mret None
    end).

(** [@retry(max_attempts=2, delay=2.0)]. *)
Definition get_profile_pic (save_path : string) : M X (option string) :=
  r ← utils.retry E 2 (Qc_of_Z 2) utils.default_backoff
        (get_profile_pic_body save_path);
  mret (mjoin r).

Definition is_logged_in : M X bool :=
  flag ← get bot_is_logged_in;
  if negb flag then mret false
  else
    r ← catching (fun _ => true)
                 (extcall ClientAccountInfo (client_account_info E));
    match r with
    | inl _ => mret true
    | inr _ => modify (with_logged_in false);; mret false
    end.

End InstagramBot.

End instagram_bot.

(* ===================================================================== *)
(** * src/scheduler.py *)
(* ===================================================================== *)

Module scheduler.

(** Truth value of the [Optional[str]] that [get_profile_pic] returns. *)
Definition truthy_path (o : option string) : bool :=
  match o with
  | Some EmptyString => false
  | Some _ => true
  | None => false
  end.

Section ReelScheduler.
Context {X : Type} (E : External X).
(** The attributes of [Config], read from the environment. *)
Variables (INSTAGRAM_USERNAME INSTAGRAM_PASSWORD : string).
Variable PROFILE_PIC_PATH : string.

(** The methods of the three components, with the defaults of their
    constructors. *)
Definition bot_login : M X bool :=
  instagram_bot.login E INSTAGRAM_USERNAME INSTAGRAM_PASSWORD
                      "instagram_session.json".
Definition bot_is_logged_in : M X bool := instagram_bot.is_logged_in E.
Definition bot_get_profile_pic (save_path : string) : M X (option string) :=
  instagram_bot.get_profile_pic E INSTAGRAM_USERNAME INSTAGRAM_PASSWORD
                                "instagram_session.json" save_path.
Definition bot_post_reel (video_path : string) (caption : str)
    : M X (option Media) :=
  instagram_bot.post_reel E INSTAGRAM_USERNAME INSTAGRAM_PASSWORD
                          "instagram_session.json" video_path caption.
Definition content_gen_get_content_for_reel
    : M X (gmap string (option str)) :=
  content_generator.get_content_for_reel E 3600.
Definition content_gen_generate_caption
    : M X content_generator.caption_data :=
  content_generator.generate_caption E 3600 "apod".

Definition _ensure_profile_picture : M X unit :=
  use_logo ← config.USE_LOGO;
  if (use_logo : bool) then
    logo_path ← config.LOGO_PATH;
    e ← os_path_exists E logo_path;
    if negb e then
      config.LOGO_PATH;;
      logger WARNING "Logo not found" None
    else mret tt
  else
    e ← os_path_exists E PROFILE_PIC_PATH;
    if negb e then
      logger INFO "Profile picture not found. Downloading from Instagram..."
             None;;
      ok ← bot_login;
      if negb ok then
        raise (mk_exn Exception "Failed to login to download profile picture")
      else
        downloaded ← bot_get_profile_pic PROFILE_PIC_PATH;
        if negb (truthy_path downloaded) then
          logger WARNING "Could not get profile picture. Creating placeholder..."
                 None;;
          extcall (SavePlaceholder PROFILE_PIC_PATH)
                  (save_placeholder E PROFILE_PIC_PATH)
        else mret tt
    else mret tt.

(** A new [InstagramBot] is logged out; a new [ContentGenerator] has an
    empty cache.  The keyword arguments of [ReelGenerator(...)] are
    evaluated before the constructor is called. *)
Definition _initialize_components : M X bool :=
  r ← catching is_Exception (
        config.validate INSTAGRAM_USERNAME INSTAGRAM_PASSWORD;;
        extcall NewClient (new_client E);;
        modify (fun w =>
          with_logged_in false
            (with_components true (sched_content_gen w) (sched_reel_gen w) w));;
        extcall NewSession (new_session E);;
        modify (fun w =>
          with_cache ∅
            (with_components (sched_bot w) true (sched_reel_gen w) w));;
        _ensure_profile_picture;;
        use_logo ← config.USE_LOGO;
        use_logo' ← config.USE_LOGO;
        (if (use_logo' : bool) then config.LOGO_PATH;; mret tt else mret tt);;
        extcall NewReelGenerator (new_reel_generator E);;
        modify (fun w =>
          with_components (sched_bot w) (sched_content_gen w) true w);;
        logger INFO "All components initialized successfully" None;;
        mret true);
  match r with
  | inl b => mret b
  | inr e =>
      logger ERROR "Failed to initialize components" (Some e);;
      mret false
  end.

(** The block under [try] in [post_daily_reel].  As in [login_body], a
    block yields [Some b] where the source returns [b] from inside it. *)
Definition post_daily_reel_body : M X bool :=
  ready ← get (fun w =>
             sched_bot w && sched_content_gen w && sched_reel_gen w);
  early ←
    (if negb ready then
       ok ← _initialize_components;
       if negb ok then
         logger ERROR "Failed to initialize components" None;;
         mret (Some false)
       else mret None
     else mret None);
  match early with
  | Some b => mret b
  | None =>
      logged_in ← bot_is_logged_in;
      early ←
        (if negb logged_in then
           logger INFO "Not logged in, attempting login..." None;;
           ok ← bot_login;
           if negb ok then
             logger ERROR "Failed to login. Please check credentials." None;;
             mret (Some false)
           else mret None
         else mret None);
      match early with
      | Some b => mret b
      | None =>
          logger INFO "Generating content..." None;;
          content_data ← content_gen_get_content_for_reel;
          logger INFO "Content generated" None;;
          caption_data ← content_gen_generate_caption;
          let caption := content_generator.caption caption_data in
          logger INFO "Creating reel..." None;;
          reel_path ← extcall GenerateReel
                        (reel_gen_generate_reel E content_data
                                                config.REEL_DURATION);
          valid ← utils.validate_video_file E reel_path
                    utils.default_min_size_mb;
          if negb valid then
            raise (mk_exn Exception "Invalid video file")
          else
            logger INFO "Posting reel to Instagram..." None;;
            media ← bot_post_reel reel_path caption;
            match media with
            | Some m =>
                now E;;
                logger INFO "Daily reel posted successfully!" None;;
                logger INFO "Media ID" None;;
                logger INFO "Reel saved at" None;;
                logger INFO "Time taken" None;;
                mret true
            | None =>
                logger ERROR "Failed to post reel (no media returned)" None;;
                mret false
            end
      end
  end.

Definition post_daily_reel : M X bool :=
  start_time ← now E;
  logger INFO "============" None;;
  logger INFO "Starting daily reel posting" None;;
  logger INFO "============" None;;
  r ← catching (fun e => is_KeyboardInterrupt e || is_Exception e)
               post_daily_reel_body;
  match r with
  | inl b => mret b
  | inr e =>
      if is_KeyboardInterrupt e then
        logger WARNING "Posting interrupted by user" None;;
        raise e
      else
        now E;;
        logger ERROR "Error posting daily reel" (Some e);;
        logger ERROR "Full error traceback:" (Some e);;
        mret false
  end.

End ReelScheduler.

End scheduler.

(* ===================================================================== *)
(** * src/reel_generator.py: the text overlay of a frame *)
(* ===================================================================== *)

Module reel_frame.

Definition REEL_WIDTH : Z := 1080.
Definition REEL_HEIGHT : Z := 1920.

(** One call [draw.text((x, y), line, fill='white', font=...)]. *)
Record draw_text : Type := mk_draw_text {
  text_x : Z;
  text_y : Z;
  text_line : str
}.

Section TextOverlay.
Variable Font : Type.
Variable textbbox : Font -> str -> Z * Z * Z * Z.

(** The last block of [create_reel_frame]: the calls of [draw.text], in
    order.  [medium] is [self._fonts['medium']]; [//] is the floor
    division, which is [Z.div] for the divisor 2. *)
Definition text_overlay (medium : Font) (content_text : str)
    : list draw_text :=
  let text_y := 1300%Z in
  let text_lines :=
    reel_generator._wrap_text Font textbbox content_text medium
                              (REEL_WIDTH - 100)%Z in
  imap (fun i line =>
          let bbox := textbbox medium line in
          let text_width := reel_generator.bbox_width bbox in
          let text_x := ((REEL_WIDTH - text_width) / 2)%Z in
          mk_draw_text text_x (text_y + Z.of_nat i * 50)%Z line)
       (slice_to 3 text_lines).

End TextOverlay.

End reel_frame.

(* ===================================================================== *)
(** * src/instagram_bot.py: the end of a session *)
(* ===================================================================== *)

Module instagram_session.

Section Logout.
Context {X : Type}.
(** [self.client.logout()]: a call into instagrapi that [External] does
    not list; the trace records the calls of [ext_call] only. *)
Variable client_logout : X -> result bool * X.

Definition call {A} (op : X -> result A * X) : M X A :=
  fun w => let '(r, x') := op (ext w) in (r, with_ext x' w).

(** [try: ... / except: pass / finally: self._is_logged_in = False]. *)
Definition logout : M X unit :=
  catching (fun _ => true) (
    flag ← get bot_is_logged_in;
    if (flag : bool) then
      call client_logout;;
      logger INFO "Logged out successfully" None
    else mret tt);;
  modify (with_logged_in false).

End Logout.

End instagram_session.

(* ===================================================================== *)
(** * Vocabulary of the statements *)
(* ===================================================================== *)

Module spec.

Section Retry.
Context {X : Type} (E : External X).

(** The world after a failed attempt that is not the last: the warning is
    logged and the wrapper has slept for [seconds]. *)
Definition after_failed_attempt (e : exn) (seconds : Qc) (w : World X)
    : World X :=
  let w1 := emit (Log WARNING "failed, retrying" (Some e)) w in
  with_ext (time_sleep E seconds (ext w1)) (emit (Sleep seconds) w1).

(** [failed_attempts func delay backoff max_attempts k w wk]: started in
    [w], the first [k] attempts raised an [Exception], none of them was
    the last allowed one, the wrapper slept [delay * backoff ^ (i - 1)]
    after the [i]-th of them, and [wk] is the world in which attempt
    [k + 1] starts. *)
Inductive failed_attempts {A} (func : M X A) (delay backoff : Qc)
    (max_attempts : Z) : nat -> World X -> World X -> Prop :=
| failed_none w : failed_attempts func delay backoff max_attempts 0 w w
| failed_more k w wk e w' :
    failed_attempts func delay backoff max_attempts k w wk ->
    func wk = (Raise e, w') ->
    is_Exception e = true ->
    (Z.of_nat (S k) < max_attempts)%Z ->
    failed_attempts func delay backoff max_attempts (S k) w
      (after_failed_attempt e (delay * backoff ^ k)%Qc w').

End Retry.

Section Cleanup.
Variable fnmatch : string -> string -> bool.

(** No two entries of a directory have the same name. *)
Definition well_formed_dir (dir : option (list utils.dir_entry)) : Prop :=
  match dir with
  | Some entries => NoDup (utils.name <$> entries)
  | None => True
  end.

(** The matching files, most recently modified first. *)
Definition newest_first (pattern : string) (entries : list utils.dir_entry)
    : list utils.dir_entry :=
  utils.sorted_reverse utils.mtime (utils.glob fnmatch pattern entries).

(** An entry is still there after the cleanup when the pattern does not
    match it, when it is among the first [keep_recent] matching files, or
    when it cannot be unlinked. *)
Definition survives (pattern : string) (keep_recent : Z)
    (entries : list utils.dir_entry) (e : utils.dir_entry) : Prop :=
  fnmatch pattern (utils.name e) = false
  \/ e ∈ take (Z.to_nat keep_recent) (newest_first pattern entries)
  \/ utils.unlink_ok e = false.

#[global] Instance survives_dec pattern keep_recent entries e :
  Decision (survives pattern keep_recent entries e).
Proof. unfold survives. apply _. Defined.

(** The files that the cleanup unlinks, in the order in which it does:
    the matching files after the first [keep_recent], newest first, that
    can be unlinked. *)
Definition unlinked (pattern : string) (keep_recent : Z)
    (entries : list utils.dir_entry) : list utils.dir_entry :=
  filter (fun f => utils.unlink_ok f = true)
         (drop (Z.to_nat keep_recent) (newest_first pattern entries)).

(** An entry once the files [removed] have been unlinked, in that order,
    at the times [unlink_time]: a directory carries the time at which the
    last of them was taken out of it. *)
Definition settled (unlink_time : string -> Z)
    (removed : list utils.dir_entry) (e : utils.dir_entry)
    : utils.dir_entry :=
  foldl (fun e f =>
           utils.touch (utils.parent_of (utils.name f))
                       (unlink_time (utils.name f)) e)
        e removed.

(** No entry that the pattern matches is the directory of an entry that
    the pattern matches: so it is when the pattern matches files only. *)
Definition unnested (pattern : string)
    (dir : option (list utils.dir_entry)) : Prop :=
  match dir with
  | Some entries =>
      Forall (fun e =>
                Forall (fun f =>
                          utils.parent_of (utils.name f)
                          <> Some (utils.name e))
                       (utils.glob fnmatch pattern entries))
             (utils.glob fnmatch pattern entries)
  | None => True
  end.

End Cleanup.

Section Content.
Context {X : Type} (E : External X).

(** A content source fails by raising an exception derived from
    [Exception] (or by returning nothing); an interrupt of the process is
    not a failure of the source. *)
Definition sources_fail_with_Exception : Prop :=
  (forall x e x', session_get E x = (Raise e, x') -> is_Exception e = true)
  /\ (forall x e x',
         feedparser_parse E x = (Raise e, x') -> is_Exception e = true).

(** Every cached record has a title: the cache only ever holds the
    records the two sources build. *)
Definition cache_ok (w : World X) : Prop :=
  forall key value timestamp,
    cg_cache w !! key = Some (value, timestamp) -> is_Some (value !! "title").

Definition has_title (r : option (gmap string str)) : Prop :=
  forall d, r = Some d -> is_Some (d !! "title").

(** The source [generate_caption] tries first, and the other one. *)
Definition requested_source (cache_ttl : Z) (content_type : string)
    : M X (option (gmap string str)) :=
  if bool_decide (content_type = "apod")
  then content_generator.get_nasa_apod E cache_ttl
  else content_generator.get_trending_space_news E cache_ttl.

Definition other_source (cache_ttl : Z) (content_type : string)
    : M X (option (gmap string str)) :=
  if bool_decide (content_type = "apod")
  then content_generator.get_trending_space_news E cache_ttl
  else content_generator.get_nasa_apod E cache_ttl.

End Content.

Section Upload.
Context {X : Type} (E : External X).

(** The ceiling of [post_reel], 100 MB, in bytes. *)
Definition size_ceiling : Z := 100 * (1024 * 1024).

(** What the block under [with] does once both validations have passed:
    the only call of [clip_upload]. *)
Definition upload (video_path : string) (caption : str) (w : World X)
    : result Media * World X :=
  let w2 := emit (Log DEBUG "Caption preview" None)
                 (emit (Log INFO "Uploading reel" None) w) in
  let '(r, x') := client_clip_upload E video_path caption (ext w2) in
  let w3 := with_ext x' (emit (Call (ClientClipUpload video_path caption)) w2)
  in
  match r with
  | Return media =>
      (Return media, emit (Log INFO "Reel posted successfully!" None) w3)
  | Raise e =>
      if is_Exception e then
        (Raise e,
         emit (Log ERROR
                   match exn_cls e with
                   | PleaseWaitFewMinutes => "Rate limited"
                   | _ => "Error posting reel"
                   end (Some e)) w3)
      else (Raise e, w3)
  end.

End Upload.

Section Scheduler.
Context {X : Type} (E : External X).

(** The world in which the [try] block of [post_daily_reel] starts: the
    clock has been read and the banner logged. *)
Definition after_banner (w : World X) : World X :=
  emit (Log INFO "============" None)
    (emit (Log INFO "Starting daily reel posting" None)
       (emit (Log INFO "============" None)
          (with_ext (datetime_now E (ext w)).2 w))).

(** The world after the [except Exception] clause has logged [e]. *)
Definition failure_logged (e : exn) (w : World X) : World X :=
  emit (Log ERROR "Full error traceback:" (Some e))
    (emit (Log ERROR "Error posting daily reel" (Some e))
       (with_ext (datetime_now E (ext w)).2 w)).

End Scheduler.

(** The durations of the sleeps of a trace, in seconds, in order. *)
Definition slept (tr : list event) : list Q :=
  omap (fun ev => match ev with Sleep d => Some (this d) | _ => None end) tr.

(** A line of [_wrap_text] is in order when it passed the width test as its
    last word was added, or is a single word of the text. *)
Definition line_ok (Font : Type) (textbbox : Font -> str -> Z * Z * Z * Z)
    (font : Font) (max_width : Z) (words : list str) (line : str) : Prop :=
  (reel_generator.text_width Font textbbox font line <= max_width)%Z
  \/ In line words.

(** What the retry wrapper does once attempt [k + 1] has started in [wk]:
    it returns the result of the attempt, or raises its exception again,
    which for an [Exception] happens at the last allowed attempt only. *)
Definition retry_outcome {X A : Type} (max_attempts : Z) (func : M X A)
    (k : nat) (wk : World X) (out : result (option A) * World X) : Prop :=
  match func wk with
  | (Return v, w') => out = (Return (Some v), w')
  | (Raise e, w') =>
      if is_Exception e then
        Z.of_nat (S k) = max_attempts
        /\ out = (Raise e,
                  emit (Log ERROR "failed after max_attempts attempts"
                            (Some e)) w')
      else out = (Raise e, w')
  end.

(** Descending order: every element is at least as recent as all that
    follow it. *)
Definition descending {A : Type} (key : A -> Z) (l : list A) : Prop :=
  StronglySorted (fun a b => (key b <= key a)%Z) l.

(** The keys, the type and the description of a record of
    [get_content_for_reel]. *)
Definition reel_record (r : gmap string (option str)) : Prop :=
  dom r = ({["type"; "title"; "text"; "image_url"; "description"]}
           : gset string)
  /\ (r !! "type" = Some (Some (lit "apod"))
      \/ r !! "type" = Some (Some (lit "news"))
      \/ r !! "type" = Some (Some (lit "default")))
  /\ exists description,
       r !! "description" = Some (Some description)
       /\ (length description <= 153)%nat.

(** Every break between two groups of words is forced: the first word of
    the next group did not fit behind the group it follows. *)
Definition breaks_forced (Font : Type)
    (textbbox : Font -> str -> Z * Z * Z * Z) (font : Font) (max_width : Z)
    (all : list (list str)) : Prop :=
  forall gs1 g w rest gs2,
    all = gs1 ++ g :: (w :: rest) :: gs2 ->
    (max_width
     < reel_generator.text_width Font textbbox font
         (join [SPACE] (g ++ [w])))%Z.

(** A width measurement is monotonic when text added at the end of a line
    never makes the line narrower. *)
Definition monotonic_width (Font : Type)
    (textbbox : Font -> str -> Z * Z * Z * Z) (font : Font) : Prop :=
  forall s t : str,
    (reel_generator.text_width Font textbbox font s
     <= reel_generator.text_width Font textbbox font (s ++ t))%Z.

(** The events of an upload that succeeds, followed by the report that
    [post_daily_reel] makes of it. *)
Definition upload_reported (video_path : string) (caption : str)
    : list event :=
  [Log INFO "Uploading reel" None;
   Log DEBUG "Caption preview" None;
   Call (ClientClipUpload video_path caption);
   Log INFO "Reel posted successfully!" None;
   Log INFO "Daily reel posted successfully!" None;
   Log INFO "Media ID" None;
   Log INFO "Reel saved at" None;
   Log INFO "Time taken" None].

(** Where the text overlay puts a line: centred to within one pixel
    between the borders of the frame, at the height [text_y]. *)
Definition centred (Font : Type) (textbbox : Font -> str -> Z * Z * Z * Z)
    (medium : Font) (d : reel_frame.draw_text) : Prop :=
  let width :=
    reel_generator.text_width Font textbbox medium (reel_frame.text_line d)
  in
  let left_margin := reel_frame.text_x d in
  let right_margin := (reel_frame.REEL_WIDTH - (left_margin + width))%Z in
  (left_margin <= right_margin <= left_margin + 1)%Z.

(** The line stays 50 pixels away from both borders. *)
Definition within_margins (Font : Type)
    (textbbox : Font -> str -> Z * Z * Z * Z)
    (medium : Font) (d : reel_frame.draw_text) : Prop :=
  let width :=
    reel_generator.text_width Font textbbox medium (reel_frame.text_line d)
  in
  (50 <= reel_frame.text_x d)%Z
  /\ (reel_frame.text_x d + width <= reel_frame.REEL_WIDTH - 50)%Z.

(** The number of calls of [clip_upload] on a trace. *)
Definition is_upload (ev : event) : bool :=
  match ev with
  | Call (ClientClipUpload _ _) => true
  | _ => false
  end.

Definition uploads (tr : list event) : nat :=
  length (filter (fun ev => is_upload ev = true) tr).

(** Between [w] and [w'] at most [k] uploads were made, and none was
    forgotten. *)
Definition uploads_within {X : Type} (k : nat) (w w' : World X) : Prop :=
  (uploads (trace w) <= uploads (trace w') <= uploads (trace w) + k)%nat.

End spec.

(* ===================================================================== *)
(** * Concrete inputs used by the examples below *)
(* ===================================================================== *)

Module fixtures.

(** A fixed-pitch font: every character is one unit wide. *)
Definition fixed_pitch_bbox (_ : unit) (s : str) : Z * Z * Z * Z :=
  (0, 0, Z.of_nat (length s), 0)%Z.

(** [glob("*")] yields every entry. *)
Definition fnmatch_star (pattern name : string) : bool :=
  bool_decide (pattern = "*").

(** An output directory with two pictures. *)
Definition two_pictures : list utils.dir_entry :=
  [utils.mk_entry "reel_frame.jpg" (Some 200%Z) true;
   utils.mk_entry "content_image.jpg" (Some 100%Z) true].

(** The same directory after one more run of the pipeline, with a
    sub-directory that [unlink] cannot remove. *)
Definition busy_directory : list utils.dir_entry :=
  [utils.mk_entry "old.jpg" (Some 50%Z) false;
   utils.mk_entry "reel_frame.jpg" (Some 200%Z) true;
   utils.mk_entry "reel.mp4" (Some 210%Z) true;
   utils.mk_entry "content_image.jpg" (Some 100%Z) true;
   utils.mk_entry "stale_frame.jpg" (Some 80%Z) true].

(** A directory [sub] with three pictures that were written to after
    they were created, so that each is newer than [sub]; [glob('**/*')]
    yields the directory and the pictures. *)
Definition nested_directory : list utils.dir_entry :=
  [utils.mk_entry "sub" (Some 7%Z) false;
   utils.mk_entry "sub/a.jpg" (Some 10%Z) true;
   utils.mk_entry "sub/b.jpg" (Some 20%Z) true;
   utils.mk_entry "sub/c.jpg" (Some 30%Z) true].

Definition fnmatch_recursive (pattern name : string) : bool :=
  bool_decide (pattern = "**/*").

(** A clock that stands at [t] for the whole run. *)
Definition clock_at (t : Z) (name : string) : Z := t.

(** A world without network and without files: every HTTP request fails,
    the feed is empty, the Instagram client refuses every call.  The state
    of the outside is the number of seconds slept so far. *)
Definition failure (c : exn_class) (msg : string) {A} (x : Qc)
    : result A * Qc :=
  (Raise (mk_exn c msg), x).

Definition offline : External Qc := {|
  files := fun _ => ∅;
  os_remove := fun _ => failure FileNotFoundError "no such file";
  datetime_now := fun x => (0%Z, x);
  strftime_ymd := fun _ => "2024-01-01";
  time_sleep := fun seconds x => (x + seconds)%Qc;
  session_get := failure RequestException "connection refused";
  feedparser_parse := fun x => (Return [], x);
  client_load_settings := fun _ => failure OSError "no session file";
  client_account_info := failure LoginRequired "login_required";
  client_login := fun _ _ => failure PleaseWaitFewMinutes "please wait";
  client_dump_settings := fun _ x => (Return tt, x);
  client_clip_upload := fun _ _ => failure LoginRequired "login_required";
  fetch_profile_pic := fun _ => failure LoginRequired "login_required";
  save_placeholder := fun _ x => (Return tt, x);
  new_client := fun x => (Return tt, x);
  new_session := fun x => (Return tt, x);
  new_reel_generator := fun x => (Return tt, x);
  reel_gen_generate_reel :=
    fun _ _ => failure Exception "Could not create video file"
|}.

(** A freshly started process: nothing logged, no component built. *)
Definition fresh {X} (x : X) : World X :=
  mkWorld x [] false ∅ false false false.

(** A logged-in session next to a rendered reel of exactly 100 MB; the
    service accepts every call. *)
Definition online : External Qc := {|
  files := fun _ => {[ "output/reel.mp4" := (100 * (1024 * 1024))%Z ]};
  os_remove := fun _ x => (Return tt, x);
  datetime_now := fun x => (0%Z, x);
  strftime_ymd := fun _ => "2024-01-01";
  time_sleep := fun seconds x => (x + seconds)%Qc;
  session_get := fun x => (Return ∅, x);
  feedparser_parse := fun x => (Return [], x);
  client_load_settings := fun _ x => (Return tt, x);
  client_account_info := fun x => (Return tt, x);
  client_login := fun _ _ x => (Return tt, x);
  client_dump_settings := fun _ x => (Return tt, x);
  client_clip_upload := fun _ _ x => (Return (mk_media "3141592653"), x);
  fetch_profile_pic := fun path x => (Return (Some path), x);
  save_placeholder := fun _ x => (Return tt, x);
  new_client := fun x => (Return tt, x);
  new_session := fun x => (Return tt, x);
  new_reel_generator := fun x => (Return tt, x);
  reel_gen_generate_reel := fun _ _ x => (Return "output/reel.mp4", x)
|}.

Definition logged_in {X} (x : X) : World X :=
  mkWorld x [] true ∅ true true true.

(** The same, with the user pressing Ctrl-C while the Instagram client is
    being built. *)
Definition interrupted : External Qc := {|
  files := files online;
  os_remove := os_remove online;
  datetime_now := datetime_now online;
  strftime_ymd := strftime_ymd online;
  time_sleep := time_sleep online;
  session_get := session_get online;
  feedparser_parse := feedparser_parse online;
  client_load_settings := client_load_settings online;
  client_account_info := client_account_info online;
  client_login := client_login online;
  client_dump_settings := client_dump_settings online;
  client_clip_upload := client_clip_upload online;
  fetch_profile_pic := fetch_profile_pic online;
  save_placeholder := save_placeholder online;
  new_client := failure KeyboardInterrupt "SIGINT";
  new_session := new_session online;
  new_reel_generator := new_reel_generator online;
  reel_gen_generate_reel := reel_gen_generate_reel online
|}.

(** An operation that times out until six seconds have been slept. *)
Definition flaky : M Qc nat :=
  fun w =>
    if bool_decide (ext w < Qc_of_Z 6)%Qc
    then (Raise (mk_exn RequestException "timed out"), w)
    else (Return 42, w).

(** The record of the picture-of-the-day scenario. *)
Definition nebula : gmap string str :=
  list_to_map
    [("title", lit "Nebula X"); ("explanation", lit "<p>Wow</p>");
     ("image_url", lit "http://img"); ("date", lit "2024-01-01")].

(** A process that fetched the picture of the day at time 0. *)
Definition warm {X} (x : X) : World X :=
  mkWorld x [] false {[ "nasa_apod_2024-01-01" := (nebula, 0%Z) ]}
          false false false.

End fixtures.

(* ===================================================================== *)
(** * Facts about the Python fragment *)
(* ===================================================================== *)

Module Py_facts.

Lemma SPACE_isspace : Py_UNICODE_ISSPACE SPACE = true.
Proof. reflexivity. Qed.

Lemma split_from_word (w cur s : str) :
  Forall (fun c => Py_UNICODE_ISSPACE c = false) w ->
  split_from cur (w ++ s) = split_from (cur ++ w) s.
Proof.
  intros Hw. revert cur. induction Hw as [|c w Hc _ IH]; intros cur.
  - by rewrite app_nil_r.
  - simpl. rewrite Hc, IH. by rewrite <- app_assoc.
Qed.

Lemma split_from_space (cur s : str) :
  cur <> [] -> split_from cur (SPACE :: s) = cur :: split_from [] s.
Proof. intros Hcur. simpl. by destruct cur. Qed.

Lemma split_from_nil (cur : str) : cur <> [] -> split_from cur [] = [cur].
Proof. intros Hcur. by destruct cur. Qed.

(** Splitting the join of words gives the words back. *)
Lemma split_join (ws : list str) :
  Forall is_word ws -> split (join [SPACE] ws) = ws.
Proof.
  unfold split. induction 1 as [|w ws [Hne Hw] Hws IH]; [done|].
  destruct ws as [|w' ws].
  - simpl. rewrite <- (app_nil_r w) at 1.
    rewrite split_from_word by done. by apply split_from_nil.
  - change (join [SPACE] (w :: w' :: ws))
      with (w ++ [SPACE] ++ join [SPACE] (w' :: ws)).
    remember (join [SPACE] (w' :: ws)) as rest eqn:Hrest.
    rewrite split_from_word by done.
    change ([SPACE] ++ rest) with (SPACE :: rest).
    rewrite split_from_space by done. by rewrite IH.
Qed.

Lemma split_from_words (cur s : str) :
  Forall (fun c => Py_UNICODE_ISSPACE c = false) cur ->
  Forall is_word (split_from cur s).
Proof.
  revert cur. induction s as [|c s IH]; intros cur Hcur; simpl.
  - destruct cur; [constructor|].
    constructor; [by split|constructor].
  - destruct (Py_UNICODE_ISSPACE c) eqn:Hc.
    + destruct cur as [|d cur]; [by apply IH|].
      constructor; [by split|]. by apply IH.
    + apply IH. apply Forall_app. split; [done|]. by constructor.
Qed.

(** Every word [split] returns is non-empty and free of whitespace. *)
Lemma split_words (s : str) : Forall is_word (split s).
Proof. by apply split_from_words. Qed.

Lemma join_app (sep : str) (l1 l2 : list str) :
  l1 <> [] -> l2 <> [] ->
  join sep (l1 ++ l2) = join sep l1 ++ sep ++ join sep l2.
Proof.
  intros H1 H2. induction l1 as [|x l1 IH]; [done|].
  destruct l1 as [|y l1].
  - simpl. by destruct l2.
  - change (join sep ((x :: y :: l1) ++ l2))
      with (x ++ sep ++ join sep ((y :: l1) ++ l2)).
    change (join sep (x :: y :: l1)) with (x ++ sep ++ join sep (y :: l1)).
    rewrite IH by done. by rewrite <- !app_assoc.
Qed.

(** Joining lines that are themselves joins is joining all the words. *)
Lemma join_concat (sep : str) (groups : list (list str)) :
  Forall (fun g => g <> []) groups ->
  join sep (map (join sep) groups) = join sep (concat groups).
Proof.
  induction 1 as [|g groups Hg Hgs IH]; [done|].
  destruct groups as [|g' groups].
  - simpl. by rewrite app_nil_r.
  - change (join sep (map (join sep) (g :: g' :: groups)))
      with (join sep g ++ sep ++ join sep (map (join sep) (g' :: groups))).
    rewrite IH. change (concat (g :: g' :: groups))
      with (g ++ concat (g' :: groups)).
    rewrite join_app; [done|done|].
    inversion Hgs; subst. simpl. by destruct g'.
Qed.

End Py_facts.

(* ===================================================================== *)
(** * Facts about src/reel_generator.py *)
(* ===================================================================== *)

Module reel_generator_facts.
Import Py_facts reel_generator.

Lemma split_only_whitespace (cur text : str) :
  forallb Py_UNICODE_ISSPACE text = true ->
  split_from cur text = match cur with [] => [] | _ => [cur] end.
Proof.
  revert cur. induction text as [|c text IH]; intros cur H; [done|].
  simpl in H. apply andb_prop in H as [Hc H]. simpl. rewrite Hc.
  rewrite (IH [] H). by destruct cur.
Qed.

Section WrapText.
Variable Font : Type.
Variable textbbox : Font -> str -> Z * Z * Z * Z.
Variable font : Font.
Variable max_width : Z.

#[local] Abbreviation step := (wrap_step Font textbbox font max_width).
#[local] Abbreviation width := (text_width Font textbbox font).
#[local] Abbreviation line_ok :=
  (spec.line_ok Font textbbox font max_width).

(** The two outcomes of one iteration. *)
Lemma wrap_step_cases (lines cur : list str) (w : str) :
  (step (lines, cur) w = (lines, cur ++ [w])
   /\ (width (join [SPACE] (cur ++ [w])) <= max_width)%Z)
  \/ step (lines, cur) w
     = (lines ++ match cur with [] => [] | _ => [join [SPACE] cur] end, [w]).
Proof.
  unfold wrap_step, text_width.
  destruct (_ <=? _)%Z eqn:Hfit.
  - left. split; [done|]. by apply Z.leb_le.
  - right. destruct cur; [|done]. by rewrite app_nil_r.
Qed.

(** The loop cuts the word sequence into consecutive non-empty groups: the
    finished lines are the joins of the groups closed so far. *)
Lemma wrap_fold_groups (ws : list str) : forall lines cur,
  exists groups cur',
    foldl step (lines, cur) ws = (lines ++ map (join [SPACE]) groups, cur')
    /\ Forall (fun g => g <> []) groups
    /\ cur ++ ws = concat groups ++ cur'.
Proof.
  induction ws as [|w ws IH]; intros lines cur.
  - exists [], cur. by rewrite !app_nil_r.
  - cbn [foldl].
    destruct (wrap_step_cases lines cur w) as [[-> _] | ->].
    + destruct (IH lines (cur ++ [w])) as (groups & cur' & Hf & Hg & Hc).
      exists groups, cur'. split_and!; [done|done|].
      by rewrite <- Hc, <- app_assoc.
    + destruct cur as [|c cur].
      * rewrite app_nil_r.
        destruct (IH lines [w]) as (groups & cur' & Hf & Hg & Hc).
        by exists groups, cur'.
      * set (cl := c :: cur).
        destruct (IH (lines ++ [join [SPACE] cl]) [w])
          as (groups & cur' & Hf & Hg & Hc).
        exists (cl :: groups), cur'. split_and!.
        -- rewrite Hf. by rewrite <- app_assoc.
        -- by constructor.
        -- change (concat (cl :: groups)) with (cl ++ concat groups).
           by rewrite <- app_assoc, <- Hc.
Qed.

(** The lines of [_wrap_text] are the joins of consecutive non-empty
    groups of the words of the text. *)
Lemma wrap_text_groups (text : str) :
  exists groups,
    _wrap_text Font textbbox text font max_width
      = map (join [SPACE]) groups
    /\ Forall (fun g => g <> []) groups
    /\ concat groups = split text.
Proof.
  unfold _wrap_text. destruct (split text) as [|w ws] eqn:Hs.
  - by exists [].
  - rewrite <- Hs.
    destruct (wrap_fold_groups (split text) [] [])
      as (groups & cur' & Hf & Hg & Hc).
    rewrite Hf. simpl in Hc. destruct cur' as [|c cur'].
    + exists groups. rewrite app_nil_r in Hc. by simpl.
    + exists (groups ++ [c :: cur']). split_and!.
      * by rewrite map_app.
      * apply Forall_app. split; [done|]. by constructor.
      * rewrite concat_app. simpl. by rewrite app_nil_r.
Qed.

Lemma wrap_fold_widths (words ws : list str) : forall lines cur,
  (forall w, In w ws -> In w words) ->
  Forall (line_ok words) lines ->
  cur = [] \/ line_ok words (join [SPACE] cur) ->
  Forall (line_ok words) (foldl step (lines, cur) ws).1
  /\ ((foldl step (lines, cur) ws).2 = []
      \/ line_ok words (join [SPACE] (foldl step (lines, cur) ws).2)).
Proof.
  induction ws as [|w ws IH]; intros lines cur Hin Hlines Hcur; [done|].
  cbn [foldl].
  assert (Hw : In w words) by (apply Hin; by left).
  assert (Hin' : forall w', In w' ws -> In w' words)
    by (intros w' Hw'; apply Hin; by right).
  destruct (wrap_step_cases lines cur w) as [[-> Hfit] | ->].
  - apply IH; [done|done|]. right. by left.
  - apply IH; [done| |right; by right].
    destruct cur as [|c cur]; [by rewrite app_nil_r|].
    apply Forall_app. split; [done|].
    constructor; [|done]. by destruct Hcur.
Qed.

End WrapText.

(** C9: the lines of [_wrap_text] keep the words of the input: joining
    them with single spaces and splitting the result on whitespace gives
    the word sequence of the input, in order and without loss or
    repetition; an empty or all-whitespace input gives no line. *)
Theorem wrap_text_preserves_words (Font : Type)
    (textbbox : Font -> str -> Z * Z * Z * Z)
    (text : str) (font : Font) (max_width : Z) :
  split (join [SPACE] (_wrap_text Font textbbox text font max_width))
    = split text
  /\ (forallb Py_UNICODE_ISSPACE text = true ->
      _wrap_text Font textbbox text font max_width = []).
Proof.
  split.
  - destruct (wrap_text_groups Font textbbox font max_width text)
      as (groups & -> & Hg & Hc).
    rewrite join_concat by done. rewrite Hc.
    apply split_join, split_words.
  - intros Hws. unfold _wrap_text, split.
    by rewrite (split_only_whitespace [] text Hws).
Qed.

Lemma wrap_text_preserves_words_witness :
  split (join [SPACE]
           (_wrap_text unit fixtures.fixed_pitch_bbox
                       (lit "the  cosmos awaits") tt 10))
    = [lit "the"; lit "cosmos"; lit "awaits"]
  /\ _wrap_text unit fixtures.fixed_pitch_bbox (lit "   ") tt 10 = [].
Proof.
  split.
  - apply (wrap_text_preserves_words unit fixtures.fixed_pitch_bbox
             (lit "the  cosmos awaits") tt 10).
  - apply (wrap_text_preserves_words unit fixtures.fixed_pitch_bbox
             (lit "   ") tt 10). reflexivity.
Defined.

(** C2, as stated, fails: with a fixed-pitch font, which is monotonic, and
    a maximum width of 5, the word "infinity" is put on a line of width
    8. *)
Lemma wrap_text_long_word_overflows :
  (forall s t : str,
      text_width unit fixtures.fixed_pitch_bbox tt s
      <= text_width unit fixtures.fixed_pitch_bbox tt (s ++ t))%Z
  /\ _wrap_text unit fixtures.fixed_pitch_bbox (lit "to infinity") tt 5
     = [lit "to"; lit "infinity"]
  /\ ~ Forall (fun line =>
                (text_width unit fixtures.fixed_pitch_bbox tt line <= 5)%Z)
        (_wrap_text unit fixtures.fixed_pitch_bbox (lit "to infinity") tt 5).
Proof.
  split_and!.
  - intros s t. unfold text_width, fixtures.fixed_pitch_bbox. simpl.
    rewrite length_app. lia.
  - reflexivity.
  - intros H. apply Forall_cons in H as [_ H].
    apply Forall_cons in H as [H _]. vm_compute in H. by apply H.
Qed.

(** C2, amended: whatever the width measurement, every line of
    [_wrap_text] has measured width at most [max_width] or is a single
    word of the input. *)
Theorem wrap_text_line_width (Font : Type)
    (textbbox : Font -> str -> Z * Z * Z * Z)
    (text : str) (font : Font) (max_width : Z) :
  Forall (fun line =>
            (text_width Font textbbox font line <= max_width)%Z
            \/ In line (split text))
         (_wrap_text Font textbbox text font max_width).
Proof.
  unfold _wrap_text. destruct (split text) as [|w ws] eqn:Hs; [done|].
  rewrite <- Hs.
  destruct (wrap_fold_widths Font textbbox font max_width
              (split text) (split text) [] []) as [Hl Hc]; [done|done|by left|].
  destruct (foldl _ _ _) as [lines cur]. simpl in Hl, Hc.
  destruct cur as [|c cur]; [done|].
  apply Forall_app. split; [done|].
  constructor; [|done]. by destruct Hc.
Qed.

End reel_generator_facts.

(* ===================================================================== *)
(** * Facts about src/content_generator.py: the caption text *)
(* ===================================================================== *)

Module caption_facts.
Import content_generator.

(** [rcut] cuts at the last occurrence of the separator. *)
Lemma rcut_Some (sep : char) (s a b : str) :
  rcut sep s = Some (a, b) -> s = a ++ sep :: b /\ ~ In sep b.
Proof.
  revert a b. induction s as [|c s IH]; intros a b; [done|].
  simpl. destruct (rcut sep s) as [[a' b']|] eqn:Hr.
  - intros [= <- <-]. destruct (IH a' b' eq_refl) as [-> Hb]. by split.
  - destruct (c =? sep)%N eqn:Hc; [|done].
    intros [= <- <-]. apply N.eqb_eq in Hc as ->. split; [done|].
    clear IH. induction s as [|d s IH]; [by intros []|].
    simpl in Hr. destruct (rcut sep s) as [[a' b']|]; [done|].
    destruct (d =? sep)%N eqn:Hd; [done|].
    apply N.eqb_neq in Hd. intros [H|H]; [done|]. by apply IH.
Qed.

Lemma rcut_None (sep : char) (s : str) : rcut sep s = None -> ~ In sep s.
Proof.
  induction s as [|c s IH]; [by intros _ []|].
  simpl. destruct (rcut sep s) as [[a' b']|]; [done|].
  destruct (c =? sep)%N eqn:Hc; [done|].
  apply N.eqb_neq in Hc. intros _ [H|H]; [done|]. by apply IH.
Qed.

(** C3, as stated, fails: a text of 2001 characters whose last space is
    its 2000th character is cut to 1999 characters and gets the ellipsis,
    2002 characters in all. *)
Lemma truncate_explanation_exceeds_budget :
  (Z.of_nat (length (repeat 97%N 1999 ++ lit " b")) > max_caption_length)%Z
  /\ truncate_explanation (repeat 97%N 1999 ++ lit " b")
     = repeat 97%N 1999 ++ lit "..."
  /\ ~ (Z.of_nat (length (truncate_explanation
                            (repeat 97%N 1999 ++ lit " b")))
        <= max_caption_length)%Z.
Proof.
  split_and!.
  - by vm_compute.
  - by vm_compute.
  - by vm_compute.
Qed.

(** C3, amended: a text longer than the budget becomes [p ++ "..."],
    where [p] is the part of its first 2000 characters before their last
    space, or all of them when they hold no space; the result has at most
    2003 characters. *)
Theorem truncate_explanation_long (explanation : str) :
  (Z.of_nat (length explanation) > max_caption_length)%Z ->
  exists p : str,
    truncate_explanation explanation = p ++ lit "..."
    /\ (length (truncate_explanation explanation) <= 2003)%nat
    /\ ((exists rest, take 2000 explanation = p ++ SPACE :: rest
                      /\ ~ In SPACE rest)
        \/ (p = take 2000 explanation
            /\ ~ In SPACE (take 2000 explanation))).
Proof.
  intros Hlen. unfold truncate_explanation.
  apply Z.gtb_gt in Hlen as Hlen'. rewrite Hlen'.
  unfold max_caption_length in *.
  change (slice_to 2000 explanation) with (take 2000 explanation).
  assert (Htake : length (take 2000 explanation) = 2000%nat)
    by (rewrite length_take; lia).
  unfold rsplit1.
  destruct (rcut SPACE (take 2000 explanation)) as [[a b]|] eqn:Hr.
  - apply rcut_Some in Hr as [Ha Hb]. exists a. simpl first.
    split_and!; [done| |left; by exists b].
    rewrite Ha, length_app in Htake. rewrite length_app.
    change (length (lit "...")) with 3%nat. simpl in Htake. lia.
  - apply rcut_None in Hr. exists (take 2000 explanation). simpl first.
    split_and!; [done| |by right].
    rewrite length_app, Htake. by vm_compute.
Qed.

Lemma truncate_explanation_long_witness :
  exists p : str,
    truncate_explanation (repeat 97%N 1999 ++ lit " b") = p ++ lit "..."
    /\ (length (truncate_explanation (repeat 97%N 1999 ++ lit " b"))
        <= 2003)%nat
    /\ ((exists rest,
            take 2000 (repeat 97%N 1999 ++ lit " b") = p ++ SPACE :: rest
            /\ ~ In SPACE rest)
        \/ (p = take 2000 (repeat 97%N 1999 ++ lit " b")
            /\ ~ In SPACE (take 2000 (repeat 97%N 1999 ++ lit " b")))).
Proof.
  apply (truncate_explanation_long (repeat 97%N 1999 ++ lit " b")).
  by vm_compute.
Defined.

End caption_facts.

(* ===================================================================== *)
(** * Facts about the runtime *)
(* ===================================================================== *)

Module Runtime_facts.

(** Unfolds the monad operations down to functions on worlds. *)
Ltac unfold_M :=
  unfold mbind, M_bind, bind, mret, M_ret, ret, raise, catching,
         logger, modify, get, extcall, sleep, now in *.

(** Case analysis on the innermost undecided test of a run [H]. *)
Ltac destruct_run H :=
  repeat match type of H with
         | context [match ?t with _ => _ end] =>
             lazymatch t with
             | context [match _ with _ => _ end] => fail
             | _ => destruct t eqn:?; simpl in H
             end
         end.

Lemma bind_Return {X A B} (m : M X A) (f : A -> M X B) w a w' :
  m w = (Return a, w') -> (m ≫= f) w = f a w'.
Proof. intros H. unfold mbind, M_bind, bind. by rewrite H. Qed.

Lemma bind_Raise {X A B} (m : M X A) (f : A -> M X B) w e w' :
  m w = (Raise e, w') -> (m ≫= f) w = (Raise e, w').
Proof. intros H. unfold mbind, M_bind, bind. by rewrite H. Qed.

Lemma catching_Return {X A} P (m : M X A) w a w' :
  m w = (Return a, w') -> catching P m w = (Return (inl a), w').
Proof. intros H. unfold catching. by rewrite H. Qed.

Lemma catching_Raise {X A} P (m : M X A) w e w' :
  m w = (Raise e, w') ->
  catching P m w = if P e then (Return (inr e), w') else (Raise e, w').
Proof. intros H. unfold catching. by rewrite H. Qed.

End Runtime_facts.

(* ===================================================================== *)
(** * Facts about src/utils.py *)
(* ===================================================================== *)

Module utils_facts.
Import Runtime_facts utils.

(** C8: [validate_video_file] returns false for a path that does not
    exist and for an existing file whose size in megabytes is below
    [min_size_mb], and true for every other existing file. *)
Theorem validate_video_file_spec {X : Type} (E : External X)
    (file_path : string) (min_size_mb : Qc) (w : World X) :
  (validate_video_file E file_path min_size_mb w).1
  = Return
      match files E (ext w) !! file_path with
      | None => false
      | Some size_bytes =>
          negb (bool_decide
                  (Qc_of_Z size_bytes / Qc_of_Z (1024 * 1024)
                   < min_size_mb)%Qc)
      end.
Proof.
  unfold validate_video_file, get_file_size_mb, os_path_exists,
    os_path_getsize.
  unfold_M.
  destruct (files E (ext w) !! file_path) as [size|] eqn:Hf; simpl.
  - rewrite Hf. simpl. by destruct (bool_decide _).
  - done.
Qed.

Section Retry.
Context {X : Type} (E : External X) {A : Type}.
Variables (max_attempts : Z) (delay backoff : Qc) (func : M X A).

#[local] Abbreviation retry_outcome :=
  (spec.retry_outcome max_attempts func).

Lemma retry_loop_spec (fuel : nat) : forall (j : nat) (w wj : World X),
  fuel = Z.to_nat (max_attempts - Z.of_nat j) ->
  (Z.of_nat j < max_attempts)%Z ->
  spec.failed_attempts E func delay backoff max_attempts j w wj ->
  exists (k : nat) (wk : World X),
    (Z.of_nat k < max_attempts)%Z
    /\ spec.failed_attempts E func delay backoff max_attempts k w wk
    /\ retry_outcome k wk
         (retry_loop E fuel max_attempts backoff func (Z.of_nat j)
                     (delay * backoff ^ j)%Qc wj).
Proof.
  induction fuel as [|fuel IH]; intros j w wj Hfuel Hj Hchain; [lia|].
  cbn [retry_loop].
  destruct (Z.ltb_spec (Z.of_nat j) max_attempts) as [_|?]; [|lia].
  destruct (func wj) as [[v|e] w'] eqn:Hf.
  - exists j, wj. split_and!; [done|done|].
    unfold spec.retry_outcome. rewrite Hf.
    erewrite bind_Return by (by apply catching_Return). done.
  - destruct (is_Exception e) eqn:He.
    + erewrite bind_Return
        by (erewrite catching_Raise by done; by rewrite He).
      cbv zeta.
      destruct (Z.geb_spec (Z.of_nat j + 1) max_attempts) as [Hlast|Hmore].
      * exists j, wj. split_and!; [done|done|].
        unfold spec.retry_outcome. rewrite Hf, He. split; [lia|reflexivity].
      * unfold_M.
        replace (Z.of_nat j + 1)%Z with (Z.of_nat (S j)) by lia.
        replace (delay * backoff ^ j * backoff)%Qc
          with (delay * backoff ^ S j)%Qc by (simpl; ring).
        apply IH; [lia|lia|].
        apply (spec.failed_more E func delay backoff max_attempts
                 j w wj e w'); [done|done|done|lia].
    + exists j, wj. split_and!; [done|done|].
      unfold spec.retry_outcome. rewrite Hf, He.
      erewrite bind_Raise; [done|].
      erewrite catching_Raise by done. by rewrite He.
Qed.

(** The bound on the iterations is never what stops the loop: more fuel
    changes nothing. *)
Lemma retry_loop_fuel_irrelevant (fuel : nat) :
  forall (attempt : Z) (d : Qc) (w : World X),
    (Z.to_nat (max_attempts - attempt) <= fuel)%nat ->
    retry_loop E (S fuel) max_attempts backoff func attempt d w
    = retry_loop E fuel max_attempts backoff func attempt d w.
Proof.
  induction fuel as [|fuel IH]; intros attempt d w Hfuel.
  - cbn [retry_loop].
    destruct (Z.ltb_spec attempt max_attempts); [lia|done].
  - cbn [retry_loop] in *.
    destruct (attempt <? max_attempts)%Z eqn:Hlt; [|done].
    apply Z.ltb_lt in Hlt.
    unfold mbind, M_bind, bind.
    destruct (catching is_Exception func w) as [[[v|e]|e] w']; [done| |done].
    destruct (attempt + 1 >=? max_attempts)%Z; [done|].
    unfold logger, modify, sleep. cbv beta iota.
    apply (IH (attempt + 1)%Z). lia.
Qed.

End Retry.

(** C5: whatever the wrapped operation and the world it starts in, the
    wrapper either has no attempt to make ([max_attempts <= 0]), or some
    [k < max_attempts] attempts fail, the wrapper sleeps
    [delay * backoff ^ (i - 1)] after the [i]-th of them, and attempt
    [k + 1] ends the call: its result is returned at once when it
    succeeds, and its exception is raised again when it fails as the last
    allowed attempt. *)
Theorem retry_spec {X : Type} (E : External X) {A : Type}
    (max_attempts : Z) (delay backoff : Qc) (func : M X A) (w : World X) :
  ((max_attempts <= 0)%Z
   /\ retry E max_attempts delay backoff func w = (Return None, w))
  \/ exists (k : nat) (wk : World X),
       (Z.of_nat k < max_attempts)%Z
       /\ spec.failed_attempts E func delay backoff max_attempts k w wk
       /\ spec.retry_outcome max_attempts func k wk
            (retry E max_attempts delay backoff func w).
Proof.
  destruct (Z.le_gt_cases max_attempts 0) as [Hle|Hgt].
  - left. split; [done|]. unfold retry.
    replace (Z.to_nat max_attempts) with 0%nat by lia. done.
  - right. unfold retry.
    destruct (retry_loop_spec E max_attempts delay backoff func
                (Z.to_nat max_attempts) 0 w w)
      as (k & wk & Hk & Hc & Ho); [lia|lia|constructor|].
    exists k, wk. split_and!; [done|done|].
    replace (delay * backoff ^ 0)%Qc with delay in Ho by (simpl; ring).
    exact Ho.
Qed.

Section FirstAttempt.
Context {X : Type} (E : External X) {A : Type}.

(** A decorated function whose first attempt returns is called once. *)
Lemma retry_first_attempt_returns (max_attempts : Z) (delay backoff : Qc)
    (func : M X A) (w w' : World X) (v : A) :
  (0 < max_attempts)%Z ->
  func w = (Return v, w') ->
  retry E max_attempts delay backoff func w = (Return (Some v), w').
Proof.
  intros Hmax Hf. unfold retry.
  destruct (Z.to_nat max_attempts) as [|n] eqn:Hn; [lia|].
  cbn [retry_loop].
  destruct (Z.ltb_spec 0 max_attempts); [|lia].
  erewrite bind_Return by (by apply catching_Return). done.
Qed.

(** An exception that is not an [Exception] goes through the wrapper. *)
Lemma retry_first_attempt_interrupted (max_attempts : Z) (delay backoff : Qc)
    (func : M X A) (w w' : World X) (e : exn) :
  (0 < max_attempts)%Z ->
  func w = (Raise e, w') ->
  is_Exception e = false ->
  retry E max_attempts delay backoff func w = (Raise e, w').
Proof.
  intros Hmax Hf He. unfold retry.
  destruct (Z.to_nat max_attempts) as [|n] eqn:Hn; [lia|].
  cbn [retry_loop].
  destruct (Z.ltb_spec 0 max_attempts); [|lia].
  erewrite bind_Raise; [done|].
  erewrite catching_Raise by done. by rewrite He.
Qed.

End FirstAttempt.

End utils_facts.

(* ===================================================================== *)
(** * Facts about [cleanup_temp_files] *)
(* ===================================================================== *)

Module cleanup_facts.
Import utils.

Section Sorting.
Context {A : Type} (key : A -> Z).

#[local] Abbreviation descending := (spec.descending key).

Lemma insert_desc_Permutation (x : A) (l : list A) :
  insert_desc key x l ≡ₚ x :: l.
Proof.
  induction l as [|y l IH]; [done|]. simpl.
  destruct (key x <? key y)%Z; [|done].
  rewrite IH. apply Permutation_swap.
Qed.

Lemma sorted_reverse_Permutation (l : list A) : sorted_reverse key l ≡ₚ l.
Proof.
  induction l as [|x l IH]; [done|].
  unfold sorted_reverse in *. simpl.
  by rewrite insert_desc_Permutation, IH.
Qed.

Lemma insert_desc_descending (x : A) (l : list A) :
  descending l -> descending (insert_desc key x l).
Proof.
  unfold spec.descending. induction 1 as [|y l Hl IH Hy]; simpl.
  - by repeat constructor.
  - destruct (Z.ltb_spec (key x) (key y)) as [Hlt|Hge].
    + constructor; [done|].
      rewrite insert_desc_Permutation. constructor; [lia|done].
    + constructor; [by constructor|].
      constructor; [done|].
      eapply Forall_impl; [exact Hy|]. simpl. intros z Hz. lia.
Qed.

Lemma sorted_reverse_descending (l : list A) :
  descending (sorted_reverse key l).
Proof.
  induction l as [|x l IH]; [constructor|].
  by apply insert_desc_descending.
Qed.

Lemma insert_desc_head (x : A) (l : list A) :
  Forall (fun z => (key z <= key x)%Z) l -> insert_desc key x l = x :: l.
Proof.
  destruct 1 as [|y l Hy _]; [done|]. simpl.
  by destruct (Z.ltb_spec (key x) (key y)); [lia|].
Qed.

(** The sort is stable, so it commutes with removing elements. *)
Lemma filter_insert_desc (P : A -> Prop) `{!forall x, Decision (P x)}
    (x : A) (l : list A) :
  descending l ->
  filter P (insert_desc key x l)
  = if decide (P x) then insert_desc key x (filter P l) else filter P l.
Proof.
  unfold spec.descending. induction 1 as [|y l Hl IH Hy]; simpl.
  - rewrite filter_cons. by destruct (decide (P x)).
  - destruct (Z.ltb_spec (key x) (key y)) as [Hlt|Hge].
    + rewrite !(filter_cons _ y), IH.
      destruct (decide (P x)), (decide (P y)); try done.
      simpl. by destruct (Z.ltb_spec (key x) (key y)); [|lia].
    + rewrite (filter_cons _ x).
      destruct (decide (P x)); [|done].
      symmetry. apply insert_desc_head.
      apply Forall_forall. intros z Hz.
      apply list_elem_of_filter in Hz as [_ Hz].
      apply elem_of_cons in Hz as [->|Hz]; [done|].
      rewrite Forall_forall in Hy. apply Hy in Hz. lia.
Qed.

Lemma filter_sorted_reverse (P : A -> Prop) `{!forall x, Decision (P x)}
    (l : list A) :
  filter P (sorted_reverse key l) = sorted_reverse key (filter P l).
Proof.
  induction l as [|x l IH]; [done|].
  change (sorted_reverse key (x :: l))
    with (insert_desc key x (sorted_reverse key l)).
  rewrite filter_insert_desc by apply sorted_reverse_descending.
  rewrite filter_cons. destruct (decide (P x)); [|done].
  by rewrite IH.
Qed.

End Sorting.

Section ListFacts.
Context {A : Type}.

Lemma filter_ext_elem (P Q : A -> Prop)
    `{!forall x, Decision (P x), !forall x, Decision (Q x)} (l : list A) :
  (forall x, x ∈ l -> P x <-> Q x) -> filter P l = filter Q l.
Proof.
  induction l as [|x l IH]; intros Hext; [done|].
  rewrite !filter_cons.
  rewrite IH by (intros y Hy; apply Hext; by right).
  assert (Hx : P x <-> Q x) by (apply Hext; by left).
  destruct (decide (P x)), (decide (Q x)); [done|tauto|tauto|done].
Qed.

Lemma filter_all (P : A -> Prop) `{!forall x, Decision (P x)} (l : list A) :
  (forall x, x ∈ l -> P x) -> filter P l = l.
Proof.
  induction l as [|x l IH]; intros Hall; [done|].
  rewrite filter_cons_True by (apply Hall; by left).
  rewrite IH; [done|]. intros y Hy. apply Hall. by right.
Qed.

Lemma NoDup_fmap_eq {B} (f : A -> B) (l : list A) (x y : A) :
  NoDup (f <$> l) -> x ∈ l -> y ∈ l -> f x = f y -> x = y.
Proof.
  induction l as [|z l IH]; intros Hnd Hx Hy Hf; [by apply elem_of_nil in Hx|].
  rewrite fmap_cons in Hnd. apply NoDup_cons in Hnd as [Hz Hnd].
  apply elem_of_cons in Hx as [->|Hx]; apply elem_of_cons in Hy as [->|Hy].
  - done.
  - exfalso. apply Hz. rewrite Hf. by apply list_elem_of_fmap_2.
  - exfalso. apply Hz. rewrite <- Hf. by apply list_elem_of_fmap_2.
  - by apply IH.
Qed.

Lemma filter_fmap_iff (P Q : A -> Prop)
    `{!forall x, Decision (P x), !forall x, Decision (Q x)}
    (h : A -> A) (l : list A) :
  (forall x, P (h x) <-> Q x) ->
  filter P (h <$> l) = h <$> filter Q l.
Proof.
  intros Hh. induction l as [|x l IH]; [done|].
  rewrite fmap_cons, !filter_cons, IH. specialize (Hh x).
  destruct (decide (P (h x))), (decide (Q x)); [done|tauto|tauto|done].
Qed.

Lemma fmap_id_elem (h : A -> A) (l : list A) :
  (forall x, x ∈ l -> h x = x) -> h <$> l = l.
Proof.
  induction l as [|x l IH]; intros Hh; [done|].
  rewrite fmap_cons, Hh by (by left).
  rewrite IH; [done|]. intros y Hy. apply Hh. by right.
Qed.

End ListFacts.

(** ** What an unlink does to the other entries *)

Lemma touch_name (dir : option string) (t : Z) (e : dir_entry) :
  name (touch dir t e) = name e.
Proof. unfold touch. by destruct (bool_decide _). Qed.

Lemma touch_unlink_ok (dir : option string) (t : Z) (e : dir_entry) :
  unlink_ok (touch dir t e) = unlink_ok e.
Proof. unfold touch. by destruct (bool_decide _). Qed.

Lemma touch_stat_ok (dir : option string) (t : Z) (e : dir_entry) :
  stat_ok (touch dir t e) = stat_ok e.
Proof.
  unfold touch, stat_ok. destruct (bool_decide _); [|done].
  simpl. by destruct (st_mtime e).
Qed.

Lemma touch_other (dir : option string) (t : Z) (e : dir_entry) :
  dir <> Some (name e) -> touch dir t e = e.
Proof. intros Hd. unfold touch. by rewrite bool_decide_eq_false_2. Qed.

Section Settled.
Variable unlink_time : string -> Z.

#[local] Abbreviation settled := (spec.settled unlink_time).

Lemma settled_cons (f : dir_entry) (fs : list dir_entry) (e : dir_entry) :
  settled (f :: fs) e
  = settled fs (touch (parent_of (name f)) (unlink_time (name f)) e).
Proof. done. Qed.

Lemma settled_name (fs : list dir_entry) (e : dir_entry) :
  name (settled fs e) = name e.
Proof.
  revert e. induction fs as [|f fs IH]; intros e; [done|].
  by rewrite settled_cons, IH, touch_name.
Qed.

Lemma settled_unlink_ok (fs : list dir_entry) (e : dir_entry) :
  unlink_ok (settled fs e) = unlink_ok e.
Proof.
  revert e. induction fs as [|f fs IH]; intros e; [done|].
  by rewrite settled_cons, IH, touch_unlink_ok.
Qed.

Lemma settled_stat_ok (fs : list dir_entry) (e : dir_entry) :
  stat_ok (settled fs e) = stat_ok e.
Proof.
  revert e. induction fs as [|f fs IH]; intros e; [done|].
  by rewrite settled_cons, IH, touch_stat_ok.
Qed.

(** Only the directory of an unlinked file changes. *)
Lemma settled_other (fs : list dir_entry) (e : dir_entry) :
  (forall f, f ∈ fs -> parent_of (name f) <> Some (name e)) ->
  settled fs e = e.
Proof.
  revert e. induction fs as [|f fs IH]; intros e Hfs; [done|].
  rewrite settled_cons, touch_other by (apply Hfs; by left).
  apply IH. intros f' Hf'. apply Hfs. by right.
Qed.

Lemma settled_changed (fs : list dir_entry) (e : dir_entry) :
  settled fs e <> e ->
  exists f, f ∈ fs /\ parent_of (name f) = Some (name e).
Proof.
  intros Hne.
  destruct (decide (Exists (fun f => parent_of (name f) = Some (name e)) fs))
    as [Hex|Hnex].
  - apply Exists_exists in Hex as (f & Hf & Hp). by exists f.
  - exfalso. apply Hne. apply settled_other. intros f Hf Hp.
    apply Hnex. apply Exists_exists. by exists f.
Qed.

(** What the loop over [files[keep_recent:]] leaves of the directory. *)
Lemma fold_unlink_entries (fs : list dir_entry) :
  forall (es : list dir_entry) (log : list event),
    (foldl (unlink_step unlink_time) (es, log) fs).1
    = settled (filter (fun f => unlink_ok f = true) fs)
        <$> filter (fun e => name e ∉
                      name <$> filter (fun f => unlink_ok f = true) fs) es.
Proof.
  induction fs as [|f fs IH]; intros es log.
  - cbn [foldl fst]. rewrite (filter_nil (fun f => unlink_ok f = true)).
    rewrite fmap_nil.
    rewrite (filter_all (fun e => name e ∉ []))
      by (intros e _; apply not_elem_of_nil).
    by rewrite fmap_id_elem.
  - cbn [foldl]. unfold unlink_step at 2.
    destruct (unlink_ok f) eqn:Hok.
    + rewrite IH. rewrite (filter_cons_True _ f) by done.
      rewrite fmap_cons.
      set (N := name <$> filter (fun f => unlink_ok f = true) fs).
      rewrite (filter_fmap_iff _ (fun e => name e ∉ N))
        by (intros e; by rewrite touch_name).
      rewrite list_filter_filter, <- list_fmap_compose.
      f_equal. apply list_filter_iff. intros e.
      rewrite not_elem_of_cons. tauto.
    + rewrite IH. rewrite (filter_cons_False _ f); [done|].
      by rewrite Hok.
Qed.

End Settled.

Section Cleanup.
Variable fnmatch : string -> string -> bool.
Variable unlink_time : string -> Z.
Variables (pattern : string) (keep_recent : Z).
Hypothesis Hkeep : (0 <= keep_recent)%Z.

#[local] Abbreviation files entries :=
  (spec.newest_first fnmatch pattern entries).
#[local] Abbreviation keep := (Z.to_nat keep_recent).
#[local] Abbreviation unlinkable :=
  (filter (fun f : dir_entry => unlink_ok f = true)).
#[local] Abbreviation survives :=
  (spec.survives fnmatch pattern keep_recent).
#[local] Abbreviation unlinked :=
  (spec.unlinked fnmatch pattern keep_recent).

Lemma slice_from_keep {A} (l : list A) :
  slice_from keep_recent l = drop keep l.
Proof. unfold slice_from. by destruct (Z.leb_spec 0 keep_recent); [|lia]. Qed.

Lemma files_elem (entries : list dir_entry) (e : dir_entry) :
  e ∈ files entries <-> fnmatch pattern (name e) = true /\ e ∈ entries.
Proof.
  unfold spec.newest_first. rewrite sorted_reverse_Permutation.
  unfold glob. by rewrite list_elem_of_filter.
Qed.

Lemma files_NoDup (entries : list dir_entry) :
  NoDup (name <$> entries) -> NoDup (files entries).
Proof.
  intros Hnd. unfold spec.newest_first.
  rewrite sorted_reverse_Permutation. unfold glob.
  apply NoDup_filter. by apply NoDup_fmap_1 in Hnd.
Qed.

Lemma dropped_not_kept (entries : list dir_entry) (e : dir_entry) :
  NoDup (name <$> entries) ->
  e ∈ drop keep (files entries) -> e ∉ take keep (files entries).
Proof.
  intros Hnd Hd Ht. apply files_NoDup in Hnd.
  rewrite <- (take_drop keep (files entries)) in Hnd.
  apply NoDup_app in Hnd as (_ & Hdisj & _). by apply (Hdisj e).
Qed.

Lemma unlinked_elem (entries : list dir_entry) (f : dir_entry) :
  f ∈ unlinked entries ->
  fnmatch pattern (name f) = true /\ f ∈ entries /\ unlink_ok f = true.
Proof.
  unfold spec.unlinked. intros Hf.
  apply list_elem_of_filter in Hf as [Hok Hf].
  apply subseteq_drop in Hf. apply files_elem in Hf as [Hm Hin]. done.
Qed.

(** A file is unlinked exactly when it does not survive. *)
Lemma unlinked_iff (entries : list dir_entry) (e : dir_entry) :
  NoDup (name <$> entries) -> e ∈ entries ->
  name e ∉ name <$> unlinked entries <-> survives entries e.
Proof.
  intros Hnd He. unfold spec.survives, spec.unlinked. split.
  - intros Hname.
    destruct (fnmatch pattern (name e)) eqn:Hm; [|by left].
    destruct (unlink_ok e) eqn:Hok; [|by right; right].
    right. left.
    destruct (decide (e ∈ take keep (files entries))) as [|Hnt]; [done|].
    exfalso. apply Hname. apply list_elem_of_fmap_2.
    apply list_elem_of_filter. split; [done|].
    assert (Hf : e ∈ files entries) by by apply files_elem.
    rewrite <- (take_drop keep (files entries)) in Hf.
    apply elem_of_app in Hf as [Hf|Hf]; done.
  - intros Hs Hname.
    apply list_elem_of_fmap in Hname as (f & Hfe & Hf).
    apply list_elem_of_filter in Hf as [Hok Hf].
    assert (Hff : f ∈ files entries) by (eapply subseteq_drop; exact Hf).
    apply files_elem in Hff as [Hm Hfin].
    assert (e = f) as <- by by eapply NoDup_fmap_eq.
    destruct Hs as [Hs|[Hs|Hs]]; [congruence| |congruence].
    by eapply dropped_not_kept.
Qed.

Lemma cleanup_state (entries : list dir_entry) :
  NoDup (name <$> entries) ->
  forallb stat_ok (glob fnmatch pattern entries) = true ->
  (cleanup_temp_files fnmatch unlink_time (Some entries) pattern
     keep_recent).1
  = Some (spec.settled unlink_time (unlinked entries)
            <$> filter (survives entries) entries).
Proof.
  intros Hnd Hstat. unfold cleanup_temp_files. rewrite Hstat.
  rewrite slice_from_keep.
  pose proof (fold_unlink_entries unlink_time
                (drop keep (sorted_reverse mtime (glob fnmatch pattern entries)))
                entries []) as Hfold.
  destruct (foldl _ _ _) as [entries' log]. simpl in *. f_equal.
  rewrite Hfold. fold (files entries). fold (unlinked entries).
  f_equal. apply filter_ext_elem. intros e He.
  by apply unlinked_iff.
Qed.

(** Nothing is left to unlink for a second run. *)
Lemma second_run_unlinks_nothing (entries : list dir_entry) :
  NoDup (name <$> entries) ->
  unlinked (filter (survives entries) entries) = [].
Proof.
  intros Hnd. unfold spec.unlinked.
  set (S := survives entries).
  assert (Hfiles : files (filter S entries) = filter S (files entries)).
  { unfold spec.newest_first. rewrite filter_sorted_reverse. f_equal.
    unfold glob. rewrite !list_filter_filter.
    apply list_filter_iff. tauto. }
  rewrite Hfiles.
  rewrite <- (take_drop keep (files entries)) at 1.
  rewrite filter_app.
  rewrite (filter_all S (take keep (files entries)))
    by (intros e He; right; by left).
  rewrite drop_app.
  rewrite (drop_ge (take keep _)) by (rewrite length_take; lia).
  simpl. apply elem_of_nil_inv. intros f Hf.
  apply list_elem_of_filter in Hf as [Hok Hf].
  apply subseteq_drop in Hf.
  apply list_elem_of_filter in Hf as [Hs Hf].
  assert (Hff : f ∈ files entries) by (eapply subseteq_drop; exact Hf).
  apply files_elem in Hff as [Hm Hfin].
  destruct Hs as [Hs|[Hs|Hs]]; [congruence| |congruence].
  by eapply dropped_not_kept.
Qed.

(** Where no matching entry is the directory of a matching entry, the
    matching entries come out of the run as they went in. *)
Lemma glob_settled (entries : list dir_entry) :
  spec.unnested fnmatch pattern (Some entries) ->
  glob fnmatch pattern
    (spec.settled unlink_time (unlinked entries)
       <$> filter (survives entries) entries)
  = glob fnmatch pattern (filter (survives entries) entries).
Proof.
  intros Hflat. unfold glob.
  rewrite (filter_fmap_iff _ (fun e => fnmatch pattern (name e) = true))
    by (intros e; by rewrite settled_name).
  apply fmap_id_elem. intros e He.
  apply list_elem_of_filter in He as [Hm He].
  apply list_elem_of_filter in He as [_ He].
  apply settled_other. intros f Hf.
  apply unlinked_elem in Hf as (Hfm & Hfin & _).
  simpl in Hflat. rewrite Forall_forall in Hflat.
  assert (Hge : e ∈ glob fnmatch pattern entries)
    by (by apply list_elem_of_filter).
  specialize (Hflat e Hge). rewrite Forall_forall in Hflat.
  apply Hflat. by apply list_elem_of_filter.
Qed.

End Cleanup.

Lemma cleanup_idempotent (fnmatch : string -> string -> bool)
    (unlink_time unlink_time' : string -> Z)
    (dir : option (list dir_entry)) (pattern : string) (keep_recent : Z) :
  (0 <= keep_recent)%Z ->
  spec.well_formed_dir dir ->
  spec.unnested fnmatch pattern dir ->
  (cleanup_temp_files fnmatch unlink_time'
     (cleanup_temp_files fnmatch unlink_time dir pattern keep_recent).1
     pattern keep_recent).1
  = (cleanup_temp_files fnmatch unlink_time dir pattern keep_recent).1.
Proof.
  intros Hkeep Hnd Hflat. destruct dir as [entries|]; [|done].
  unfold spec.well_formed_dir in Hnd.
  destruct (forallb stat_ok (glob fnmatch pattern entries)) eqn:Hstat.
  - rewrite (cleanup_state fnmatch unlink_time pattern keep_recent Hkeep)
      by done.
    set (entries' := _ <$> filter _ entries).
    assert (Hglob : glob fnmatch pattern entries'
                    = glob fnmatch pattern
                        (filter (spec.survives fnmatch pattern keep_recent
                                   entries) entries))
      by (by apply glob_settled).
    unfold cleanup_temp_files. rewrite Hglob.
    destruct (forallb stat_ok
                (glob fnmatch pattern
                   (filter (spec.survives fnmatch pattern keep_recent
                              entries) entries))); [|done].
    rewrite (slice_from_keep keep_recent Hkeep).
    pose proof (fold_unlink_entries unlink_time'
                  (drop (Z.to_nat keep_recent)
                     (sorted_reverse mtime
                        (glob fnmatch pattern
                           (filter (spec.survives fnmatch pattern keep_recent
                                      entries) entries))))
                  entries' []) as Hfold.
    destruct (foldl _ _ _) as [entries'' log]. simpl in *. f_equal.
    rewrite Hfold.
    pose proof (second_run_unlinks_nothing fnmatch unlink_time pattern
                  keep_recent entries Hnd) as Hnone.
    unfold spec.unlinked, spec.newest_first in Hnone. rewrite Hnone.
    clearbody entries'. rewrite fmap_nil.
    rewrite (filter_all (fun e => name e ∉ []))
      by (intros e _; apply not_elem_of_nil).
    apply fmap_id_elem. intros e _. reflexivity.
  - unfold cleanup_temp_files at 2. rewrite Hstat. simpl.
    unfold cleanup_temp_files. by rewrite Hstat.
Qed.

(** C4, as stated, fails.  [glob('**/*')] yields the directory [sub] and
    its three pictures; with [keep_recent = 2] the run unlinks the oldest
    picture, fails to unlink [sub], and leaves three matching entries,
    not two.  Unlinking the picture has made [sub] the newest entry, so a
    second run keeps [sub] and the newest picture and unlinks the second
    newest: twice is not once. *)
Lemma cleanup_second_run_removes_more :
  (cleanup_temp_files fixtures.fnmatch_recursive (fixtures.clock_at 40)
     (Some fixtures.nested_directory) "**/*" 2).1
  = Some [utils.mk_entry "sub" (Some 40%Z) false;
          utils.mk_entry "sub/b.jpg" (Some 20%Z) true;
          utils.mk_entry "sub/c.jpg" (Some 30%Z) true]
  /\ (cleanup_temp_files fixtures.fnmatch_recursive (fixtures.clock_at 50)
        (cleanup_temp_files fixtures.fnmatch_recursive
           (fixtures.clock_at 40) (Some fixtures.nested_directory)
           "**/*" 2).1 "**/*" 2).1
     = Some [utils.mk_entry "sub" (Some 50%Z) false;
             utils.mk_entry "sub/c.jpg" (Some 30%Z) true]
  /\ (cleanup_temp_files fixtures.fnmatch_recursive (fixtures.clock_at 50)
        (cleanup_temp_files fixtures.fnmatch_recursive
           (fixtures.clock_at 40) (Some fixtures.nested_directory)
           "**/*" 2).1 "**/*" 2).1
     <> (cleanup_temp_files fixtures.fnmatch_recursive
           (fixtures.clock_at 40) (Some fixtures.nested_directory)
           "**/*" 2).1
  /\ length (glob fixtures.fnmatch_recursive "**/*"
               [utils.mk_entry "sub" (Some 40%Z) false;
                utils.mk_entry "sub/b.jpg" (Some 20%Z) true;
                utils.mk_entry "sub/c.jpg" (Some 30%Z) true])
     <> Z.to_nat 2.
Proof.
  split_and!; [by vm_compute|by vm_compute|by vm_compute|by vm_compute].
Qed.

(** C4, amended: for a directory whose entries have distinct names and
    [keep_recent >= 0], the cleanup leaves the entries that the pattern
    does not match, the first [keep_recent] matching entries in the order
    newest first (all of them when fewer match), and the entries that
    cannot be unlinked; it removes every other entry, and a directory
    from which it removes a file gets the time of the removal as its
    modification time; when [stat] fails on a matching entry, or the
    directory does not exist, nothing changes.  Where no matching entry
    is the directory of a matching entry, as when the pattern matches
    files only, a second run changes nothing more. *)
Theorem cleanup_temp_files_keeps_newest (fnmatch : string -> string -> bool)
    (unlink_time : string -> Z)
    (dir : option (list dir_entry)) (pattern : string) (keep_recent : Z) :
  (0 <= keep_recent)%Z ->
  spec.well_formed_dir dir ->
  (cleanup_temp_files fnmatch unlink_time dir pattern keep_recent).1
  = (fun entries =>
       if forallb stat_ok (glob fnmatch pattern entries)
       then spec.settled unlink_time
              (spec.unlinked fnmatch pattern keep_recent entries)
              <$> filter (spec.survives fnmatch pattern keep_recent entries)
                         entries
       else entries) <$> dir
  /\ (spec.unnested fnmatch pattern dir ->
      forall unlink_time' : string -> Z,
        (cleanup_temp_files fnmatch unlink_time'
           (cleanup_temp_files fnmatch unlink_time dir pattern
              keep_recent).1
           pattern keep_recent).1
        = (cleanup_temp_files fnmatch unlink_time dir pattern
             keep_recent).1).
Proof.
  intros Hkeep Hwf. split.
  - destruct dir as [entries|]; [|done]. simpl fmap.
    destruct (forallb stat_ok (glob fnmatch pattern entries)) eqn:Hstat.
    + by apply cleanup_state.
    + unfold cleanup_temp_files. by rewrite Hstat.
  - intros Hflat unlink_time'. by apply cleanup_idempotent.
Qed.

Lemma cleanup_temp_files_keeps_newest_witness :
  (cleanup_temp_files fixtures.fnmatch_star (fixtures.clock_at 300)
     (Some fixtures.busy_directory) "*" 2).1
  = Some [utils.mk_entry "old.jpg" (Some 50%Z) false;
          utils.mk_entry "reel_frame.jpg" (Some 200%Z) true;
          utils.mk_entry "reel.mp4" (Some 210%Z) true]
  /\ (cleanup_temp_files fixtures.fnmatch_star (fixtures.clock_at 400)
        (cleanup_temp_files fixtures.fnmatch_star (fixtures.clock_at 300)
           (Some fixtures.busy_directory) "*" 2).1 "*" 2).1
     = (cleanup_temp_files fixtures.fnmatch_star (fixtures.clock_at 300)
          (Some fixtures.busy_directory) "*" 2).1.
Proof.
  destruct (cleanup_temp_files_keeps_newest fixtures.fnmatch_star
              (fixtures.clock_at 300) (Some fixtures.busy_directory) "*" 2)
    as [Honce Htwice].
  - lia.
  - apply (bool_decide_unpack _). by vm_compute.
  - split.
    + rewrite Honce. by vm_compute.
    + apply Htwice. apply (bool_decide_unpack _). by vm_compute.
Defined.

End cleanup_facts.

(* ===================================================================== *)
(** * Facts about src/content_generator.py: the content sources *)
(* ===================================================================== *)

Module content_facts.
Import Runtime_facts utils utils_facts content_generator.

Section Sources.
Context {X : Type} (E : External X).
Variable cache_ttl : Z.
Hypothesis Hsources : spec.sources_fail_with_Exception E.

Lemma get_cached_returns (key : string) (w : World X) :
  exists r w',
    _get_cached E cache_ttl key w = (Return r, w')
    /\ (spec.cache_ok w -> spec.cache_ok w' /\ spec.has_title r).
Proof.
  unfold _get_cached. unfold_M.
  destruct (cg_cache w !! key) as [[value timestamp]|] eqn:Hc.
  - destruct (datetime_now E (ext w)) as [t x'] eqn:Ht.
    destruct (t - timestamp <? cache_ttl)%Z.
    + eexists _, _. split; [done|]. intros Hok. split.
      * intros k v ts. by apply Hok.
      * intros d [= <-]. by eapply Hok.
    + eexists _, _. split; [done|]. intros Hok. split; [|done].
      intros k v ts. simpl. intros Hl.
      apply lookup_delete_Some in Hl as [_ Hl]. by eapply Hok.
  - eexists _, _. split; [done|]. by intros Hok.
Qed.

Lemma cache_ok_insert (w : World X) (key : string) (value : gmap string str)
    (t : Z) (c : gmap string (gmap string str * Z)) :
  (forall k v ts, c !! k = Some (v, ts) -> is_Some (v !! "title")) ->
  is_Some (value !! "title") ->
  spec.cache_ok (with_cache (<[key := (value, t)]> c) w).
Proof.
  intros Hok Hv k v ts. simpl. intros Hl.
  apply lookup_insert_Some in Hl as [[_ [= <- <-]]|[_ Hl]]; [done|].
  by eapply Hok.
Qed.

Lemma get_nasa_apod_body_returns (w : World X) :
  exists r w',
    get_nasa_apod_body E cache_ttl w = (Return r, w')
    /\ (spec.cache_ok w -> spec.cache_ok w' /\ spec.has_title r).
Proof.
  destruct Hsources as [Hget _].
  unfold get_nasa_apod_body.
  destruct (now E w) as [rt w0] eqn:Hnow.
  assert (exists t x0, rt = Return t /\ w0 = with_ext x0 w)
    as (t & x0 & -> & ->).
  { unfold now in Hnow. destruct (datetime_now E (ext w)) as [t x0].
    injection Hnow as <- <-. by eexists _, _. }
  erewrite bind_Return by done. cbv zeta.
  destruct (get_cached_returns ("nasa_apod_" +:+ strftime_ymd E t)
              (with_ext x0 w)) as (cached & w1 & Hcached & Hok1).
  erewrite bind_Return by done.
  destruct (truthy cached) eqn:Htruthy.
  - unfold_M. eexists _, _. split; [done|]. intros Hok.
    destruct (Hok1 Hok) as [Hok1' Ht]. split; [|done].
    intros k v ts. by apply Hok1'.
  - unfold _set_cache. unfold_M.
    destruct (session_get E (ext w1)) as [[data|e] x1] eqn:Hs.
    + cbn [ext with_ext emit].
      destruct (datetime_now E x1) as [today x2]. cbn [ext with_ext emit].
      destruct (datetime_now E x2) as [t3 x3].
      eexists _, _. split; [done|]. intros Hok.
      destruct (Hok1 Hok) as [Hok1' _]. split.
      * apply cache_ok_insert; [|done]. simpl. intros k v ts. apply Hok1'.
      * by intros d [= <-].
    + rewrite (Hget _ _ _ Hs).
      destruct (is_RequestException e);
        (eexists _, _; split; [done|]; intros Hok;
         destruct (Hok1 Hok) as [Hok1' _]; split; [|done];
         intros k v ts; apply Hok1').
Qed.

Lemma get_trending_space_news_body_returns (w : World X) :
  exists r w',
    get_trending_space_news_body E cache_ttl w = (Return r, w')
    /\ (spec.cache_ok w -> spec.cache_ok w' /\ spec.has_title r).
Proof.
  destruct Hsources as [_ Hparse].
  unfold get_trending_space_news_body. cbv zeta.
  destruct (get_cached_returns "space_news" w)
    as (cached & w1 & Hcached & Hok1).
  erewrite bind_Return by done.
  destruct (truthy cached) eqn:Htruthy.
  - unfold_M. eexists _, _. split; [done|]. intros Hok.
    destruct (Hok1 Hok) as [Hok1' Ht]. split; [|done].
    intros k v ts. by apply Hok1'.
  - unfold _set_cache. unfold_M.
    destruct (feedparser_parse E (ext w1)) as [[entries|e] x1] eqn:Hs.
    + destruct entries as [|article entries].
      * eexists _, _. split; [done|]. intros Hok.
        destruct (Hok1 Hok) as [Hok1' _]. split; [|done].
        intros k v ts. apply Hok1'.
      * cbn [ext with_ext emit].
        destruct (datetime_now E x1) as [t3 x3].
        eexists _, _. split; [done|]. intros Hok.
        destruct (Hok1 Hok) as [Hok1' _]. split.
        -- apply cache_ok_insert; [|done]. simpl. intros k v ts. apply Hok1'.
        -- by intros d [= <-].
    + rewrite (Hparse _ _ _ Hs).
      eexists _, _. split; [done|]. intros Hok.
      destruct (Hok1 Hok) as [Hok1' _]. split; [|done].
      intros k v ts. apply Hok1'.
Qed.

(** Under their decorators the two sources always return: a record, or
    [None] when the source failed. *)
Lemma get_nasa_apod_returns (w : World X) :
  exists r w',
    get_nasa_apod E cache_ttl w = (Return r, w')
    /\ (spec.cache_ok w -> spec.cache_ok w' /\ spec.has_title r).
Proof.
  destruct (get_nasa_apod_body_returns w) as (r & w' & Hb & Hok).
  exists r, w'. split; [|done]. unfold get_nasa_apod.
  erewrite bind_Return
    by (by apply retry_first_attempt_returns; [lia|exact Hb]).
  done.
Qed.

Lemma get_trending_space_news_returns (w : World X) :
  exists r w',
    get_trending_space_news E cache_ttl w = (Return r, w')
    /\ (spec.cache_ok w -> spec.cache_ok w' /\ spec.has_title r).
Proof.
  destruct (get_trending_space_news_body_returns w) as (r & w' & Hb & Hok).
  exists r, w'. split; [|done]. unfold get_trending_space_news.
  erewrite bind_Return
    by (by apply retry_first_attempt_returns; [lia|exact Hb]).
  done.
Qed.

Lemma build_caption_nonempty (content : gmap string str) :
  build_caption content <> [].
Proof. unfold build_caption. cbn [join app]. discriminate. Qed.

End Sources.

(** One run of [generate_caption], with the invariant of the cache. *)
Lemma generate_caption_run {X : Type} (E : External X) (cache_ttl : Z)
    (content_type : string) (w : World X) :
  spec.sources_fail_with_Exception E ->
  exists (d : caption_data) (w' : World X),
    generate_caption E cache_ttl content_type w = (Return d, w')
    /\ (spec.cache_ok w -> spec.cache_ok w')
    /\ exists c1 w1,
         spec.requested_source E cache_ttl content_type w = (Return c1, w1)
         /\ if truthy c1 then c1 = Some (content d) /\ w' = w1
            else exists c2 w2,
                spec.other_source E cache_ttl content_type w1
                = (Return c2, w2)
                /\ if truthy c2 then c2 = Some (content d) /\ w' = w2
                   else exists today, content d = fallback_content today.
Proof.
  intros Hsources.
  assert (Hsrc : forall w0,
    exists c1 w1,
      spec.requested_source E cache_ttl content_type w0 = (Return c1, w1)
      /\ (spec.cache_ok w0 -> spec.cache_ok w1)).
  { intros w0. unfold spec.requested_source. destruct (bool_decide _).
    - destruct (get_nasa_apod_returns E cache_ttl Hsources w0)
        as (r & w' & Hr & Hok). exists r, w'. split; [done|].
      intros H0. by apply Hok.
    - destruct (get_trending_space_news_returns E cache_ttl Hsources w0)
        as (r & w' & Hr & Hok). exists r, w'. split; [done|].
      intros H0. by apply Hok. }
  assert (Hoth : forall w0,
    exists c1 w1,
      spec.other_source E cache_ttl content_type w0 = (Return c1, w1)
      /\ (spec.cache_ok w0 -> spec.cache_ok w1)).
  { intros w0. unfold spec.other_source. destruct (bool_decide _).
    - destruct (get_trending_space_news_returns E cache_ttl Hsources w0)
        as (r & w' & Hr & Hok). exists r, w'. split; [done|].
      intros H0. by apply Hok.
    - destruct (get_nasa_apod_returns E cache_ttl Hsources w0)
        as (r & w' & Hr & Hok). exists r, w'. split; [done|].
      intros H0. by apply Hok. }
  destruct (Hsrc w) as (c1 & w1 & H1 & Hok1).
  destruct (Hoth w1) as (c2 & w2 & H2 & Hok2).
  (* the source chosen by the first block *)
  assert (exists ct,
    (if bool_decide (content_type = "apod") then
       content ← get_nasa_apod E cache_ttl;
       if negb (truthy content) then
         content ← get_trending_space_news E cache_ttl;
         mret (content, "news")
       else mret (content, content_type)
     else
       content ← get_trending_space_news E cache_ttl;
       if negb (truthy content) then
         content ← get_nasa_apod E cache_ttl;
         mret (content, "apod")
       else mret (content, content_type)) w
    = if truthy c1 then (Return (c1, ct), w1) else (Return (c2, ct), w2))
    as (ct & Hchoice).
  { unfold spec.requested_source, spec.other_source in *.
    revert H1 H2.
    destruct (bool_decide (content_type = "apod")); intros H1 H2;
      destruct (truthy c1) eqn:Ht1; eexists;
      erewrite bind_Return by exact H1; cbv beta; rewrite Ht1; cbn [negb];
      try reflexivity; erewrite bind_Return by exact H2; reflexivity. }
  unfold generate_caption.
  destruct (truthy c1) eqn:Ht1.
  - destruct c1 as [d1|]; [|done].
    eexists _, _. split.
    { erewrite bind_Return by exact Hchoice. cbv beta iota.
      rewrite Ht1. cbn [negb]. reflexivity. }
    split; [done|].
    exists (Some d1), w1. split; [done|]. by rewrite Ht1.
  - destruct (truthy c2) eqn:Ht2.
    + destruct c2 as [d2|]; [|done].
      eexists _, _. split.
      { erewrite bind_Return by exact Hchoice. cbv beta iota.
        rewrite Ht2. cbn [negb]. reflexivity. }
      split; [by intros H0; apply Hok2, Hok1|].
      exists c1, w1. split; [done|]. rewrite Ht1.
      exists (Some d2), w2. split; [done|]. by rewrite Ht2.
    + destruct (datetime_now E (ext w2)) as [today x'] eqn:Hnow.
      eexists _, _. split.
      { erewrite bind_Return by exact Hchoice. cbv beta iota.
        rewrite Ht2. cbn [negb].
        unfold_M. cbn [ext emit with_ext]. rewrite Hnow. reflexivity. }
      split; [intros H0 k v ts; by apply Hok2, Hok1|].
      exists c1, w1. split; [done|]. rewrite Ht1.
      exists c2, w2. split; [done|]. rewrite Ht2.
      by eexists.
Qed.

(** The invariant of the cache is kept by [generate_caption]. *)
Lemma generate_caption_keeps_cache {X : Type} (E : External X)
    (cache_ttl : Z) (content_type : string) (w : World X) :
  spec.sources_fail_with_Exception E ->
  spec.cache_ok w ->
  spec.cache_ok (generate_caption E cache_ttl content_type w).2.
Proof.
  intros Hsources Hok.
  destruct (generate_caption_run E cache_ttl content_type w Hsources)
    as (d & w' & -> & Hok' & _). by apply Hok'.
Qed.

(** C1: whichever of the two sources fail, [generate_caption] returns a
    record whose caption is a non-empty string; its content is the record
    of the requested source when that source succeeds, else the record of
    the other source when that one succeeds, else the hard-coded
    content. *)
Theorem generate_caption_total {X : Type} (E : External X) (cache_ttl : Z)
    (content_type : string) (w : World X) :
  spec.sources_fail_with_Exception E ->
  exists (d : caption_data) (w' : World X),
    generate_caption E cache_ttl content_type w = (Return d, w')
    /\ caption d <> []
    /\ exists c1 w1,
         spec.requested_source E cache_ttl content_type w = (Return c1, w1)
         /\ if truthy c1 then c1 = Some (content d) /\ w' = w1
            else exists c2 w2,
                spec.other_source E cache_ttl content_type w1
                = (Return c2, w2)
                /\ if truthy c2 then c2 = Some (content d) /\ w' = w2
                   else exists today, content d = fallback_content today.
Proof.
  intros Hsources.
  destruct (generate_caption_run E cache_ttl content_type w Hsources)
    as (d & w' & Hrun & _ & Hsrc).
  exists d, w'. split_and!; [done| |done].
  assert (Hcap : exists content0, caption d = build_caption content0).
  { unfold generate_caption in Hrun. unfold_M.
    destruct_run Hrun; simplify_eq; by eexists. }
  destruct Hcap as [content0 ->]. apply build_caption_nonempty.
Qed.

Lemma generate_caption_total_witness :
  exists (d : caption_data) (w' : World Qc),
    generate_caption fixtures.offline 3600 "apod" (fixtures.fresh 0%Qc)
    = (Return d, w')
    /\ caption d <> []
    /\ exists c1 w1,
         spec.requested_source fixtures.offline 3600 "apod"
           (fixtures.fresh 0%Qc) = (Return c1, w1)
         /\ if truthy c1 then c1 = Some (content d) /\ w' = w1
            else exists c2 w2,
                spec.other_source fixtures.offline 3600 "apod" w1
                = (Return c2, w2)
                /\ if truthy c2 then c2 = Some (content d) /\ w' = w2
                   else exists today, content d = fallback_content today.
Proof.
  apply (generate_caption_total fixtures.offline 3600 "apod"
           (fixtures.fresh 0%Qc)).
  split; intros x e x' [= <- _]; reflexivity.
Defined.

Lemma describe_length (text : str) : (length (describe text) <= 153)%nat.
Proof.
  unfold describe. destruct (Z.gtb_spec (Z.of_nat (length text)) 150).
  - change (slice_to 150 text) with (take 150 text).
    rewrite length_app, length_take. change (length (lit "...")) with 3%nat.
    lia.
  - lia.
Qed.

Lemma reel_record_intro (type title text : str) (image_url : option str)
    (description : str) :
  type = lit "apod" \/ type = lit "news" \/ type = lit "default" ->
  (length description <= 153)%nat ->
  spec.reel_record (list_to_map
                 [("type", Some type); ("title", Some title);
                  ("text", Some text); ("image_url", image_url);
                  ("description", Some description)]).
Proof.
  intros Htype Hlen. split_and!.
  - rewrite dom_list_to_map_L. simpl. set_solver.
  - simpl. rewrite lookup_insert_eq.
    destruct Htype as [->|[->| ->]]; auto.
  - exists description. split; [|done]. simpl.
    by repeat (rewrite lookup_insert_ne by done); rewrite lookup_insert_eq.
Qed.

(** C10: whatever the outcome of the two fetches, [get_content_for_reel]
    returns a record with the keys type, title, text, image_url and
    description, whose type is 'apod', 'news' or 'default' and whose
    description has at most 153 characters. *)
Theorem get_content_for_reel_record {X : Type} (E : External X)
    (cache_ttl : Z) (w : World X) :
  spec.sources_fail_with_Exception E ->
  spec.cache_ok w ->
  exists (r : gmap string (option str)) (w' : World X),
    get_content_for_reel E cache_ttl w = (Return r, w')
    /\ spec.reel_record r
    /\ spec.cache_ok w'.
Proof.
  intros Hsources Hok.
  destruct (get_nasa_apod_returns E cache_ttl Hsources w)
    as (apod & w1 & Hapod & Hok1).
  destruct (Hok1 Hok) as [Hok1' Htitle1].
  destruct (get_trending_space_news_returns E cache_ttl Hsources w1)
    as (news & w2 & Hnews & Hok2).
  destruct (Hok2 Hok1') as [Hok2' Htitle2].
  unfold get_content_for_reel.
  destruct (truthy apod && truthy_str (default ∅ apod !! "image_url"))
    eqn:Hcond.
  - apply andb_prop in Hcond as [Ht Hurl].
    destruct apod as [d|]; [|done]. simpl in Hurl.
    destruct (Htitle1 d eq_refl) as [title Hd].
    destruct (d !! "image_url") as [image_url|] eqn:Hu; [|done].
    eexists _, w1. split_and!; [|apply reel_record_intro|done].
    + erewrite bind_Return by exact Hapod. cbv beta.
      change (default ∅ (Some d)) with d. rewrite Hu, Ht, Hurl. cbn [andb].
      unfold getitem. rewrite Hd, Hu. reflexivity.
    + by left.
    + apply describe_length.
  - destruct (truthy news) eqn:Htn.
    + destruct news as [d|]; [|done].
      destruct (Htitle2 d eq_refl) as [title Hd].
      eexists _, w2. split_and!; [|apply reel_record_intro|done].
      * erewrite bind_Return by exact Hapod. cbv beta.
        rewrite Hcond.
        erewrite bind_Return by exact Hnews. cbv beta.
        rewrite Htn. change (default ∅ (Some d)) with d.
        unfold getitem. rewrite Hd. reflexivity.
      * right. by left.
      * apply describe_length.
    + eexists _, _. split_and!; [|apply reel_record_intro|].
      * erewrite bind_Return by exact Hapod. cbv beta.
        rewrite Hcond.
        erewrite bind_Return by exact Hnews. cbv beta.
        rewrite Htn. reflexivity.
      * right. by right.
      * change (length (lit "The cosmos awaits!")) with 18%nat. lia.
      * intros k v ts. apply Hok2'.
Qed.

Lemma get_content_for_reel_record_witness :
  exists (r : gmap string (option str)) (w' : World Qc),
    get_content_for_reel fixtures.offline 3600 (fixtures.fresh 0%Qc)
    = (Return r, w')
    /\ spec.reel_record r
    /\ spec.cache_ok w'.
Proof.
  apply (get_content_for_reel_record fixtures.offline 3600
           (fixtures.fresh 0%Qc)).
  - split; intros x e x' [= <- _]; reflexivity.
  - intros key value timestamp Hl. simpl in Hl.
    by rewrite lookup_empty in Hl.
Defined.

End content_facts.

(* ===================================================================== *)
(** * Facts about src/instagram_bot.py *)
(* ===================================================================== *)

Module instagram_bot_facts.
Import Runtime_facts utils utils_facts instagram_bot.

(** The size test of [post_reel], in bytes. *)
Lemma over_ceiling_iff (size : Z) :
  (Qc_of_Z 100 < Qc_of_Z size / Qc_of_Z (1024 * 1024))%Qc
  <-> (spec.size_ceiling < size)%Z.
Proof.
  unfold spec.size_ceiling.
  assert (Hpos : (0 < Qc_of_Z (1024 * 1024))%Qc)
    by (rewrite <- Z2Qc_inj_0; by apply Z2Qc_inj_lt).
  assert (Hne : Qc_of_Z (1024 * 1024) <> 0%Qc)
    by (intros H; rewrite H in Hpos; by apply Qclt_not_eq in Hpos).
  rewrite (Qcmult_lt_mono_pos_r _ _ _ Hpos).
  rewrite (Qcmult_comm (_ / _)), Qcmult_div_r by done.
  rewrite <- Z2Qc_inj_mul. symmetry. apply Z2Qc_inj_lt.
Qed.

Section Bot.
Context {X : Type} (E : External X).
Variables (username password session_file : string).

#[local] Abbreviation login_body :=
  (instagram_bot.login_body E username password session_file).
#[local] Abbreviation login :=
  (instagram_bot.login E username password session_file).

(** [login_body] leaves the flag equal to the value it returns, and lets
    no [Exception] out. *)
Lemma login_body_flag (w w1 : World X) (r : result bool) :
  login_body w = (r, w1) ->
  match r with
  | Return b => bot_is_logged_in w1 = b
  | Raise e => is_Exception e = false
  end.
Proof.
  unfold instagram_bot.login_body, os_path_exists. unfold_M.
  intros H. destruct_run H;
    injection H as <- <-; simpl; congruence.
Qed.

(** The decorator of [login] never has a second attempt to make. *)
Lemma login_unfold (w : World X) : login w = login_body w.
Proof.
  unfold instagram_bot.login.
  destruct (login_body w) as [[b|e] w1] eqn:Hb.
  - erewrite bind_Return
      by (by apply retry_first_attempt_returns; [lia|exact Hb]).
    done.
  - apply login_body_flag in Hb as He.
    erewrite bind_Raise; [done|].
    by apply retry_first_attempt_interrupted; [lia|exact Hb|].
Qed.

Lemma login_flag (w w1 : World X) (b : bool) :
  login w = (Return b, w1) -> bot_is_logged_in w1 = b.
Proof. rewrite login_unfold. apply login_body_flag. Qed.

Lemma upload_block_spec (video_path : string) (caption : str)
    (w : World X) :
  upload_block E video_path caption w
  = match files E (ext w) !! video_path with
    | None => (Raise (mk_exn FileNotFoundError "Video file not found"), w)
    | Some size =>
        if (spec.size_ceiling <? size)%Z
        then (Raise (mk_exn ValueError "Video file too large (max 100MB)"),
              w)
        else spec.upload E video_path caption w
    end.
Proof.
  unfold upload_block, os_path_exists, os_path_getsize. unfold_M.
  destruct (files E (ext w) !! video_path) as [size|] eqn:Hf; simpl;
    [|done].
  rewrite Hf.
  destruct (Z.ltb_spec spec.size_ceiling size) as [Hlt|Hge].
  - rewrite bool_decide_eq_true_2 by (by apply over_ceiling_iff). done.
  - rewrite bool_decide_eq_false_2
      by (rewrite over_ceiling_iff; lia).
    unfold spec.upload. cbn [ext emit with_ext].
    destruct (client_clip_upload E video_path caption (ext w))
      as [[media|e] x'] eqn:Hup; [done|].
    destruct (is_Exception e); [|done].
    by destruct (exn_cls e).
Qed.

End Bot.

(** C7, amended: an attempt of [post_reel] first makes sure of the
    logged-in state (it runs [login] when the flag is down and raises
    unless [login] returns true, which leaves the flag up); the block it
    then runs raises without calling the service when the video file does
    not exist or is larger than 100 MB, and calls [clip_upload] otherwise;
    [post_reel] makes at most two attempts, the second one 5 seconds
    after the first has raised an [Exception]. *)
Theorem post_reel_checks {X : Type} (E : External X)
    (username password session_file video_path : string) (caption : str)
    (w : World X) :
  let login := instagram_bot.login E username password session_file in
  let attempt :=
    post_reel_body E username password session_file video_path caption in
  (if bot_is_logged_in w
   then attempt w = upload_block E video_path caption w
   else match login w with
        | (Return true, w1) =>
            bot_is_logged_in w1 = true
            /\ attempt w = upload_block E video_path caption w1
        | (Return false, w1) =>
            attempt w
            = (Raise (mk_exn Exception "Failed to login to Instagram"), w1)
        | (Raise e, w1) => attempt w = (Raise e, w1)
        end)
  /\ (forall w1 : World X,
        upload_block E video_path caption w1
        = match files E (ext w1) !! video_path with
          | None =>
              (Raise (mk_exn FileNotFoundError "Video file not found"), w1)
          | Some size =>
              if (spec.size_ceiling <? size)%Z
              then (Raise (mk_exn ValueError
                             "Video file too large (max 100MB)"), w1)
              else spec.upload E video_path caption w1
          end)
  /\ post_reel E username password session_file video_path caption w
     = match attempt w with
       | (Return media, w1) => (Return (Some media), w1)
       | (Raise e, w1) =>
           if is_Exception e then
             match attempt (spec.after_failed_attempt E e (Qc_of_Z 5) w1)
             with
             | (Return media, w3) => (Return (Some media), w3)
             | (Raise e', w3) =>
                 if is_Exception e' then
                   (Raise e',
                    emit (Log ERROR "failed after max_attempts attempts"
                              (Some e')) w3)
                 else (Raise e', w3)
             end
           else (Raise e, w1)
       end.
Proof.
  intros login attempt. split_and!.
  - unfold attempt, post_reel_body, _ensure_login. unfold_M. fold login.
    destruct (bot_is_logged_in w) eqn:Hflag; simpl; [done|].
    destruct (login w) as [[[|]|e] w1] eqn:Hlogin; simpl; [|done|done].
    split; [|done]. by apply (login_flag E username password session_file w).
  - intros w1. apply upload_block_spec.
  - unfold post_reel, retry. fold attempt. clearbody attempt. clear login.
    change (Z.to_nat 2) with 2%nat. cbn [retry_loop]. unfold_M. simpl.
    destruct (attempt w) as [[media|e] w1]; [done|].
    destruct (is_Exception e); [|done].
    unfold spec.after_failed_attempt. simpl.
    destruct (attempt _) as [[media|e'] w3]; [done|].
    by destruct (is_Exception e').
Qed.

(** C7, as stated, fails: a reel of exactly 100 MB is not under the
    ceiling, and [post_reel] uploads it. *)
Lemma post_reel_uploads_100MB :
  files fixtures.online 0%Qc !! "output/reel.mp4" = Some spec.size_ceiling
  /\ ~ (spec.size_ceiling < 100 * (1024 * 1024))%Z
  /\ (post_reel fixtures.online "venture" "secret" "instagram_session.json"
        "output/reel.mp4" (lit "caption") (fixtures.logged_in 0%Qc)).1
     = Return (Some (mk_media "3141592653"))
  /\ Call (ClientClipUpload "output/reel.mp4" (lit "caption"))
     ∈ trace (post_reel fixtures.online "venture" "secret"
                "instagram_session.json" "output/reel.mp4" (lit "caption")
                (fixtures.logged_in 0%Qc)).2.
Proof.
  assert (Hblock :
    post_reel_body fixtures.online "venture" "secret"
      "instagram_session.json" "output/reel.mp4" (lit "caption")
      (fixtures.logged_in 0%Qc)
    = spec.upload fixtures.online "output/reel.mp4" (lit "caption")
        (fixtures.logged_in 0%Qc)).
  { change (post_reel_body fixtures.online "venture" "secret"
              "instagram_session.json" "output/reel.mp4" (lit "caption")
              (fixtures.logged_in 0%Qc))
      with (upload_block fixtures.online "output/reel.mp4" (lit "caption")
              (fixtures.logged_in 0%Qc)).
    by rewrite upload_block_spec. }
  unfold post_reel.
  erewrite retry_first_attempt_returns; [|lia|by rewrite Hblock].
  split_and!; [done|by vm_compute|done|].
  simpl. apply list_elem_of_In. simpl. tauto.
Qed.

End instagram_bot_facts.

(* ===================================================================== *)
(** * Facts about src/scheduler.py *)
(* ===================================================================== *)

Module scheduler_facts.
Import Runtime_facts scheduler.

(** C6, as stated, fails: when the user interrupts the run of a newly
    built scheduler while the Instagram client is being constructed,
    [post_daily_reel] logs a warning and raises the [KeyboardInterrupt]
    again instead of returning false. *)
Lemma post_daily_reel_reraises_interrupt :
  (new_client fixtures.interrupted 0%Qc).1
  = Raise (mk_exn KeyboardInterrupt "SIGINT")
  /\ (post_daily_reel fixtures.interrupted "venture" "secret"
        "profile_pic.jpg" (fixtures.fresh 0%Qc)).1
     = Raise (mk_exn KeyboardInterrupt "SIGINT")
  /\ trace (post_daily_reel fixtures.interrupted "venture" "secret"
              "profile_pic.jpg" (fixtures.fresh 0%Qc)).2
     = [Log INFO "============" None;
        Log INFO "Starting daily reel posting" None;
        Log INFO "============" None;
        Call NewClient;
        Log WARNING "Posting interrupted by user" None].
Proof. split_and!; [reflexivity|by vm_compute|by vm_compute]. Qed.

(** C6, amended: an exception that derives from [Exception] and leaves
    the [try] block of [post_daily_reel] (a stage raised it and did not
    handle it itself) is caught by [post_daily_reel], which logs it and
    returns false, so that no exception that derives from [Exception]
    ever leaves [post_daily_reel]; a [KeyboardInterrupt] that leaves the
    block is logged and raised again, and any other exception outside
    [Exception] goes through unlogged. *)
Theorem post_daily_reel_catches {X : Type} (E : External X)
    (INSTAGRAM_USERNAME INSTAGRAM_PASSWORD PROFILE_PIC_PATH : string)
    (w : World X) :
  let run :=
    post_daily_reel E INSTAGRAM_USERNAME INSTAGRAM_PASSWORD
                    PROFILE_PIC_PATH w in
  match post_daily_reel_body E INSTAGRAM_USERNAME INSTAGRAM_PASSWORD
          PROFILE_PIC_PATH (spec.after_banner E w)
  with
  | (Return b, w1) => run = (Return b, w1)
  | (Raise e, w1) =>
      if is_Exception e then run = (Return false, spec.failure_logged E e w1)
      else if is_KeyboardInterrupt e then
        run = (Raise e,
               emit (Log WARNING "Posting interrupted by user" None) w1)
      else run = (Raise e, w1)
  end
  /\ match run with
     | (Return _, _) => True
     | (Raise e, _) => is_Exception e = false
     end.
Proof.
  intros run. unfold run, post_daily_reel, spec.after_banner.
  generalize (post_daily_reel_body E INSTAGRAM_USERNAME INSTAGRAM_PASSWORD
                PROFILE_PIC_PATH) as body.
  intros body. unfold_M.
  destruct (datetime_now E (ext w)) as [start_time x0]. simpl.
  destruct (body _) as [[b|e] w1]; [done|].
  unfold is_KeyboardInterrupt, is_Exception, spec.failure_logged.
  destruct e as [cls msg].
  destruct cls; simpl; try done;
    by destruct (datetime_now E (ext w1)).
Qed.

End scheduler_facts.

(* ===================================================================== *)
(** * The embedding at work on concrete inputs *)
(* ===================================================================== *)

Module examples.

Example split_drops_whitespace :
  split (lit "  daily   space updates ")
  = [lit "daily"; lit "space"; lit "updates"].
Proof. reflexivity. Qed.

Example wrap_three_lines :
  reel_generator._wrap_text unit fixtures.fixed_pitch_bbox
    (lit "Exploring the Universe tonight") tt 13
  = [lit "Exploring the"; lit "Universe"; lit "tonight"].
Proof. reflexivity. Qed.

Example strip_paragraph_tags :
  content_generator.re_sub_tags (lit "<p>Wow</p> a < b") = lit "Wow a < b".
Proof. reflexivity. Qed.

Example short_text_is_kept :
  content_generator.truncate_explanation (lit "The cosmos awaits!")
  = lit "The cosmos awaits!".
Proof. reflexivity. Qed.

(** The caption of the picture-of-the-day scenario: the title, the text
    without its tags, the call to follow and ten hashtags. *)
Example nebula_caption :
  content_generator.build_caption fixtures.nebula
  = [content_generator.ROCKET; SPACE] ++ lit "Nebula X"
    ++ [NEWLINE; NEWLINE] ++ lit "Wow" ++ [NEWLINE; NEWLINE]
    ++ lit "Follow @ventureuniverse for daily space updates! "
    ++ [content_generator.MILKY_WAY; content_generator.SPARKLES]
    ++ [NEWLINE; NEWLINE]
    ++ lit ("#space #astronomy #nasa #spacex #universe #cosmos "
            +:+ "#astrophysics #spaceexploration #ventureuniverse "
            +:+ "#spacenews").
Proof. by vm_compute. Qed.

(** Two timeouts, then a result at the third and last attempt: the
    wrapper sleeps 2 and then 4 seconds. *)
Example retry_flaky :
  (utils.retry fixtures.offline 3 (Qc_of_Z 2) utils.default_backoff
     fixtures.flaky (fixtures.fresh 0%Qc)).1 = Return (Some 42)
  /\ spec.slept
       (trace (utils.retry fixtures.offline 3 (Qc_of_Z 2)
                 utils.default_backoff fixtures.flaky
                 (fixtures.fresh 0%Qc)).2)
     = [2 # 1; 4 # 1]%Q.
Proof. split; by vm_compute. Qed.

(** With both sources down the reel gets the default content. *)
Example offline_reel_is_default :
  (content_generator.get_content_for_reel fixtures.offline 3600
     (fixtures.fresh 0%Qc)).1
  = Return (list_to_map
              [("type", Some (lit "default"));
               ("title", Some (lit "Space Discovery"));
               ("text", Some (lit "Exploring the Universe"));
               ("image_url", None);
               ("description", Some (lit "The cosmos awaits!"))]).
Proof. by vm_compute. Qed.

(** The run of a newly built scheduler ends in a logged failure, online
    as well as offline: initialisation stops at [Config.USE_LOGO]. *)
Example first_run_returns_false :
  scheduler.post_daily_reel fixtures.online "venture" "secret"
    "profile_pic.jpg" (fixtures.fresh 0%Qc)
  = (Return false,
     mkWorld 0%Qc
       [Log INFO "============" None;
        Log INFO "Starting daily reel posting" None;
        Log INFO "============" None;
        Call NewClient;
        Call NewSession;
        Log ERROR "Failed to initialize components"
            (Some (mk_exn AttributeError
                     "type object 'Config' has no attribute 'USE_LOGO'"));
        Log ERROR "Failed to initialize components" None]
       false ∅ true true false)
  /\ (scheduler.post_daily_reel fixtures.offline "venture" "secret"
        "profile_pic.jpg" (fixtures.fresh 0%Qc)).1
     = Return false.
Proof. split; by vm_compute. Qed.

End examples.

(* ===================================================================== *)
(** * More about [_wrap_text] *)
(* ===================================================================== *)

Module wrap_text_more.
Import Py_facts reel_generator reel_generator_facts.

Lemma join_words_nonempty (g : list str) :
  g <> [] -> Forall is_word g -> join [SPACE] g <> [].
Proof.
  intros Hg Hw. destruct g as [|w g]; [done|].
  apply Forall_cons in Hw as [[Hne _] _].
  destruct g; simpl; [done|]. by destruct w.
Qed.

Lemma length_concat_nonempty {A} (groups : list (list A)) :
  Forall (fun g => g <> []) groups ->
  (length groups <= length (concat groups))%nat.
Proof.
  induction 1 as [|g groups Hg _ IH]; [done|].
  simpl. rewrite length_app. destruct g; [done|]. simpl. lia.
Qed.

Lemma Forall_concat_inv {A} (P : A -> Prop) (groups : list (list A)) :
  Forall P (concat groups) -> Forall (Forall P) groups.
Proof.
  induction groups as [|g groups IH]; [by constructor|].
  simpl. intros H. apply Forall_app in H as [Hg H].
  constructor; [done|]. by apply IH.
Qed.

(** X1: [_wrap_text] returns no empty line and never more lines than the
    text has words. *)
Theorem wrap_text_no_blank_line (Font : Type)
    (textbbox : Font -> str -> Z * Z * Z * Z)
    (text : str) (font : Font) (max_width : Z) :
  Forall (fun line => line <> [])
         (_wrap_text Font textbbox text font max_width)
  /\ (length (_wrap_text Font textbbox text font max_width)
      <= length (split text))%nat.
Proof.
  destruct (wrap_text_groups Font textbbox font max_width text)
    as (groups & -> & Hg & Hc).
  pose proof (split_words text) as Hw. rewrite <- Hc in Hw.
  apply Forall_concat_inv in Hw. split.
  - apply Forall_fmap. clear Hc.
    induction Hg as [|g groups Hg _ IH]; [constructor|].
    apply Forall_cons in Hw as [Hwg Hw].
    constructor; [by apply join_words_nonempty|by apply IH].
  - rewrite length_map, <- Hc. by apply length_concat_nonempty.
Qed.

Section Greedy.
Variable Font : Type.
Variable textbbox : Font -> str -> Z * Z * Z * Z.
Variable font : Font.
Variable max_width : Z.

#[local] Abbreviation step := (wrap_step Font textbbox font max_width).
#[local] Abbreviation width := (text_width Font textbbox font).

(** The two outcomes of one iteration, with what the test found. *)
Lemma wrap_step_tested (lines cur : list str) (w : str) :
  (step (lines, cur) w = (lines, cur ++ [w])
   /\ (width (join [SPACE] (cur ++ [w])) <= max_width)%Z)
  \/ (step (lines, cur) w
      = (lines ++ match cur with [] => [] | _ => [join [SPACE] cur] end, [w])
      /\ (max_width < width (join [SPACE] (cur ++ [w])))%Z).
Proof.
  unfold wrap_step, text_width.
  destruct (Z.leb_spec (bbox_width (textbbox font
              (join [SPACE] (cur ++ [w])))) max_width) as [Hfit|Hnot].
  - left. by split.
  - right. split; [|done]. destruct cur; [|done]. by rewrite app_nil_r.
Qed.

#[local] Abbreviation breaks_forced :=
  (spec.breaks_forced Font textbbox font max_width).

Lemma wrap_fold_greedy (ws : list str) : forall lines cur,
  exists groups cur',
    foldl step (lines, cur) ws = (lines ++ map (join [SPACE]) groups, cur')
    /\ Forall (fun g => g <> []) groups
    /\ cur ++ ws = concat groups ++ cur'
    /\ (exists tail rest_groups,
           groups ++ [cur'] = (cur ++ tail) :: rest_groups)
    /\ breaks_forced (groups ++ [cur']).
Proof.
  induction ws as [|w ws IH]; intros lines cur.
  - exists [], cur. rewrite !app_nil_r. split_and!; [done|done|done| |].
    + exists [], []. by rewrite app_nil_r.
    + intros gs1 g w rest gs2 H. simpl in H.
      destruct gs1 as [|? [|? ?]]; discriminate.
  - cbn [foldl].
    destruct (wrap_step_tested lines cur w) as [[-> _] | [-> Hnot]].
    + destruct (IH lines (cur ++ [w]))
        as (groups & cur' & Hf & Hg & Hc & (tail & rg & Hhd) & Hb).
      exists groups, cur'. split_and!; [done|done| | |done].
      * by rewrite <- Hc, <- app_assoc.
      * exists ([w] ++ tail), rg. by rewrite Hhd, <- app_assoc.
    + destruct cur as [|c cur].
      * rewrite app_nil_r.
        destruct (IH lines [w])
          as (groups & cur' & Hf & Hg & Hc & (tail & rg & Hhd) & Hb).
        exists groups, cur'. split_and!; [done|done|done| |done].
        by exists ([w] ++ tail), rg.
      * set (cl := c :: cur) in *.
        destruct (IH (lines ++ [join [SPACE] cl]) [w])
          as (groups & cur' & Hf & Hg & Hc & (tail & rg & Hhd) & Hb).
        exists (cl :: groups), cur'. split_and!.
        -- rewrite Hf. by rewrite <- app_assoc.
        -- by constructor.
        -- change (concat (cl :: groups)) with (cl ++ concat groups).
           by rewrite <- app_assoc, <- Hc.
        -- exists [], (groups ++ [cur']). by rewrite app_nil_r.
        -- intros gs1 g w0 rest gs2 H.
           change ((cl :: groups) ++ [cur']) with (cl :: (groups ++ [cur']))
             in H.
           destruct gs1 as [|g1 gs1]; simpl in H.
           ++ injection H as <- H. rewrite Hhd in H.
              by simplify_eq/=.
           ++ injection H as _ H. by eapply Hb.
Qed.

End Greedy.

(** X2: the wrap is greedy.  The lines are the joins of consecutive groups
    of the words of the text, and wherever one line ends and the next
    begins, the first word of the next line did not fit at the end of the
    line before it. *)
Theorem wrap_text_breaks_forced (Font : Type)
    (textbbox : Font -> str -> Z * Z * Z * Z)
    (text : str) (font : Font) (max_width : Z) :
  exists groups : list (list str),
    _wrap_text Font textbbox text font max_width
      = map (join [SPACE]) groups
    /\ concat groups = split text
    /\ spec.breaks_forced Font textbbox font max_width groups.
Proof.
  unfold _wrap_text. destruct (split text) as [|w ws] eqn:Hs.
  - exists []. split_and!; [done|done|].
    intros gs1 g w rest gs2 H. destruct gs1; discriminate.
  - rewrite <- Hs.
    destruct (wrap_fold_greedy Font textbbox font max_width (split text)
                [] []) as (groups & cur' & Hf & Hg & Hc & _ & Hb).
    rewrite Hf. simpl in Hc. destruct cur' as [|c cur'].
    + exists groups. rewrite app_nil_r in Hc. split_and!; [done|done|].
      intros gs1 g w0 rest gs2 H. eapply (Hb gs1 g w0 rest (gs2 ++ [[]])).
      rewrite H. by rewrite <- !app_assoc.
    + exists (groups ++ [c :: cur']). split_and!.
      * by rewrite map_app.
      * rewrite concat_app. simpl. by rewrite app_nil_r.
      * done.
Qed.

Section AllFits.
Variable Font : Type.
Variable textbbox : Font -> str -> Z * Z * Z * Z.
Variable font : Font.
Variable max_width : Z.

#[local] Abbreviation step := (wrap_step Font textbbox font max_width).
#[local] Abbreviation width := (text_width Font textbbox font).

Lemma wrap_fold_all_fit (ws : list str) : forall lines cur,
  (forall k, (1 <= k <= length ws)%nat ->
             (width (join [SPACE] (cur ++ take k ws)) <= max_width)%Z) ->
  foldl step (lines, cur) ws = (lines, cur ++ ws).
Proof.
  induction ws as [|w ws IH]; intros lines cur Hfit.
  - by rewrite app_nil_r.
  - cbn [foldl].
    destruct (wrap_step_tested Font textbbox font max_width lines cur w)
      as [[-> _] | [_ Hnot]].
    + rewrite IH; [by rewrite <- app_assoc|].
      intros k Hk. rewrite <- app_assoc.
      apply (Hfit (S k)). simpl. lia.
    + specialize (Hfit 1%nat). simpl in Hfit. rewrite take_0 in Hfit.
      lia.
Qed.

Lemma width_join_take (ws : list str) (k : nat) :
  spec.monotonic_width Font textbbox font ->
  (1 <= k)%nat -> ws <> [] ->
  (width (join [SPACE] (take k ws)) <= width (join [SPACE] ws))%Z.
Proof.
  intros Hmono Hk Hws.
  rewrite <- (take_drop k ws) at 2.
  destruct (drop k ws) as [|d ds] eqn:Hd; [by rewrite app_nil_r|].
  rewrite join_app; [apply Hmono| |done].
  destruct ws; [done|]. by destruct k; [lia|].
Qed.

End AllFits.

(** X3: with a monotonic width measurement, a text that fits in the
    maximum width once its words are joined by single spaces is returned
    as that one line. *)
Theorem wrap_text_single_line (Font : Type)
    (textbbox : Font -> str -> Z * Z * Z * Z)
    (text : str) (font : Font) (max_width : Z) :
  spec.monotonic_width Font textbbox font ->
  split text <> [] ->
  (text_width Font textbbox font (join [SPACE] (split text))
   <= max_width)%Z ->
  _wrap_text Font textbbox text font max_width
  = [join [SPACE] (split text)].
Proof.
  intros Hmono Hne Hfit. unfold _wrap_text.
  destruct (split text) as [|w ws] eqn:Hs; [done|]. rewrite <- Hs.
  rewrite (wrap_fold_all_fit Font textbbox font max_width).
  - simpl. by rewrite Hs.
  - intros k Hk. simpl.
    etrans; [|exact Hfit]. rewrite <- Hs.
    apply width_join_take; [done|lia|by rewrite Hs].
Qed.

Lemma wrap_text_single_line_witness :
  _wrap_text unit fixtures.fixed_pitch_bbox (lit " Space  Discovery ") tt 980
  = [lit "Space Discovery"].
Proof.
  apply (wrap_text_single_line unit fixtures.fixed_pitch_bbox
           (lit " Space  Discovery ") tt 980).
  - intros s t. unfold text_width, fixtures.fixed_pitch_bbox. simpl.
    rewrite length_app. lia.
  - by vm_compute.
  - by vm_compute.
Defined.

End wrap_text_more.

(* ===================================================================== *)
(** * More about src/utils.py *)
(* ===================================================================== *)

Module utils_more.
Import Runtime_facts utils utils_facts cleanup_facts.

(** The default threshold of 0.1 MB, in bytes. *)
Lemma below_default_iff (size : Z) :
  (Qc_of_Z size / Qc_of_Z (1024 * 1024) < default_min_size_mb)%Qc
  <-> (size < 104858)%Z.
Proof.
  unfold default_min_size_mb.
  assert (Hpos : (0 < Qc_of_Z (1024 * 1024) * Qc_of_Z 10)%Qc).
  { rewrite <- Z2Qc_inj_mul, <- Z2Qc_inj_0. by apply Z2Qc_inj_lt. }
  assert (Hne1 : Qc_of_Z (1024 * 1024) <> 0%Qc).
  { rewrite <- Z2Qc_inj_0. intros H. by apply Z2Qc_inj in H. }
  assert (Hne2 : Qc_of_Z 10 <> 0%Qc).
  { rewrite <- Z2Qc_inj_0. intros H. by apply Z2Qc_inj in H. }
  rewrite (Qcmult_lt_mono_pos_r _ _ _ Hpos).
  replace (Qc_of_Z size / Qc_of_Z (1024 * 1024)
           * (Qc_of_Z (1024 * 1024) * Qc_of_Z 10))%Qc
    with (Qc_of_Z (size * 10)) by (rewrite Z2Qc_inj_mul; by field).
  replace (1 / Qc_of_Z 10 * (Qc_of_Z (1024 * 1024) * Qc_of_Z 10))%Qc
    with (Qc_of_Z (1024 * 1024)) by (by field).
  rewrite <- Z2Qc_inj_lt. lia.
Qed.

(** X4: with its default threshold, [validate_video_file] accepts exactly
    the existing files of at least 104858 bytes (0.1 MB is 104857.6
    bytes), and it leaves the outside world as it found it. *)
Theorem validate_video_file_default {X : Type} (E : External X)
    (file_path : string) (w : World X) :
  (validate_video_file E file_path default_min_size_mb w).1
  = Return match files E (ext w) !! file_path with
           | Some size_bytes => bool_decide (104858 <= size_bytes)%Z
           | None => false
           end
  /\ ext (validate_video_file E file_path default_min_size_mb w).2 = ext w.
Proof.
  unfold validate_video_file, get_file_size_mb, os_path_exists,
    os_path_getsize.
  unfold_M.
  destruct (files E (ext w) !! file_path) as [size|] eqn:Hf; simpl;
    [|done].
  rewrite Hf. simpl.
  destruct (decide (size < 104858)%Z) as [Hlt|Hge].
  - rewrite bool_decide_eq_true_2 by (by apply below_default_iff).
    rewrite bool_decide_eq_false_2 by lia. done.
  - rewrite bool_decide_eq_false_2 by (by rewrite below_default_iff).
    rewrite bool_decide_eq_true_2 by lia. done.
Qed.

Lemma slice_from_subseteq {A} (k : Z) (l : list A) : slice_from k l ⊆ l.
Proof. unfold slice_from. destruct (0 <=? k)%Z; apply subseteq_drop. Qed.

(** X5: whatever the directory, the pattern and [keep_recent], the cleanup
    only removes entries: the names that are left are the old names with
    some taken out, in the same order, every entry that the pattern does
    not match is still there, and an entry that is left is as it was,
    unless it is the directory of a matching file that the run has
    removed, which changes its modification time only; a missing
    directory stays missing. *)
Theorem cleanup_only_removes_matching (fnmatch : string -> string -> bool)
    (unlink_time : string -> Z)
    (dir : option (list dir_entry)) (pattern : string) (keep_recent : Z) :
  match dir,
        (cleanup_temp_files fnmatch unlink_time dir pattern keep_recent).1
  with
  | Some entries, Some entries' =>
      name <$> entries' `sublist_of` name <$> entries
      /\ (forall e, e ∈ entries -> fnmatch pattern (name e) = false ->
                    name e ∈ name <$> entries')
      /\ (forall e', e' ∈ entries' ->
            e' ∈ entries
            \/ exists e f,
                 e ∈ entries /\ name e' = name e
                 /\ unlink_ok e' = unlink_ok e
                 /\ f ∈ entries /\ fnmatch pattern (name f) = true
                 /\ parent_of (name f) = Some (name e)
                 /\ name f ∉ name <$> entries')
  | None, None => True
  | _, _ => False
  end.
Proof.
  destruct dir as [entries|]; [|done]. unfold cleanup_temp_files.
  destruct (forallb stat_ok (glob fnmatch pattern entries)).
  2:{ simpl. split_and!; [done| |by left].
      intros e He _. by apply list_elem_of_fmap_2. }
  pose proof (fold_unlink_entries unlink_time
                (slice_from keep_recent
                   (sorted_reverse mtime (glob fnmatch pattern entries)))
                entries []) as Hfold.
  destruct (foldl _ _ _) as [entries' log]. simpl in *. subst entries'.
  set (fs := slice_from keep_recent _) in *.
  set (R := filter (fun f => unlink_ok f = true) fs).
  assert (HR : forall f, f ∈ R ->
                 f ∈ entries /\ fnmatch pattern (name f) = true).
  { intros f Hf. apply list_elem_of_filter in Hf as [_ Hf].
    apply slice_from_subseteq in Hf.
    rewrite sorted_reverse_Permutation in Hf.
    by apply list_elem_of_filter in Hf as [Hm Hin]. }
  assert (Hnames :
    name <$> (spec.settled unlink_time R
                <$> filter (fun e => name e ∉ name <$> R) entries)
    = name <$> filter (fun e => name e ∉ name <$> R) entries).
  { rewrite <- list_fmap_compose. apply list_fmap_ext.
    intros k e _. apply settled_name. }
  rewrite Hnames. split_and!.
  - apply fmap_sublist, sublist_filter.
  - intros e He Hno. apply list_elem_of_fmap_2.
    apply list_elem_of_filter. split; [|done].
    intros Hname. apply list_elem_of_fmap in Hname as (f & Hfe & Hf).
    apply HR in Hf as [_ Hm]. congruence.
  - intros e' He'. apply list_elem_of_fmap in He' as (e & -> & He).
    apply list_elem_of_filter in He as [Hn He].
    destruct (decide (spec.settled unlink_time R e = e)) as [->|Hne];
      [by left|].
    right. apply settled_changed in Hne as (f & Hf & Hp).
    exists e, f. destruct (HR f Hf) as [Hfin Hfm].
    split_and!; [done|apply settled_name|apply settled_unlink_ok
                |done|done|done|].
    intros Hin. apply list_elem_of_fmap in Hin as (g & Hg & Hgin).
    apply list_elem_of_filter in Hgin as [Hgn _].
    apply Hgn. rewrite <- Hg. by apply list_elem_of_fmap_2.
Qed.

Lemma StronglySorted_app_elems {A} (R : A -> A -> Prop) (l1 l2 : list A)
    (x1 x2 : A) :
  StronglySorted R (l1 ++ l2) -> x1 ∈ l1 -> x2 ∈ l2 -> R x1 x2.
Proof.
  induction l1 as [|y l1 IH]; intros Hs H1 H2; [by apply elem_of_nil in H1|].
  simpl in Hs. apply StronglySorted_inv in Hs as [Hs Hy].
  apply elem_of_cons in H1 as [->|H1]; [|by apply IH].
  rewrite Forall_forall in Hy. apply Hy. apply elem_of_app. by right.
Qed.

(** X6: the files that are kept for their rank are the most recent ones:
    no file that the cleanup removes was modified later than any of the
    first [keep_recent] files, which it all keeps. *)
Theorem cleanup_removes_oldest (fnmatch : string -> string -> bool)
    (unlink_time : string -> Z)
    (entries entries' : list dir_entry) (pattern : string)
    (keep_recent : Z) (removed kept : dir_entry) :
  (0 <= keep_recent)%Z ->
  NoDup (name <$> entries) ->
  forallb stat_ok (glob fnmatch pattern entries) = true ->
  (cleanup_temp_files fnmatch unlink_time (Some entries) pattern
     keep_recent).1
  = Some entries' ->
  removed ∈ entries -> name removed ∉ name <$> entries' ->
  kept ∈ take (Z.to_nat keep_recent)
              (spec.newest_first fnmatch pattern entries) ->
  name kept ∈ name <$> entries' /\ (mtime removed <= mtime kept)%Z.
Proof.
  intros Hk Hnd Hstat Hrun Hin Hout Hkept.
  rewrite (cleanup_state fnmatch unlink_time pattern keep_recent Hk
             entries Hnd Hstat) in Hrun.
  injection Hrun as <-.
  assert (Hnames : forall e,
    e ∈ filter (spec.survives fnmatch pattern keep_recent entries) entries ->
    name e
    ∈ name <$> (spec.settled unlink_time
                  (spec.unlinked fnmatch pattern keep_recent entries)
                  <$> filter (spec.survives fnmatch pattern keep_recent
                                entries) entries)).
  { intros e He. rewrite <- (settled_name unlink_time
                               (spec.unlinked fnmatch pattern keep_recent
                                  entries) e).
    by apply list_elem_of_fmap_2, list_elem_of_fmap_2. }
  split.
  - apply Hnames. apply list_elem_of_filter. split; [right; by left|].
    apply subseteq_take in Hkept.
    by apply (files_elem fnmatch pattern) in Hkept as [_ ?].
  - assert (Hdrop : removed
              ∈ drop (Z.to_nat keep_recent)
                     (spec.newest_first fnmatch pattern entries)).
    { destruct (fnmatch pattern (name removed)) eqn:Hm.
      - assert (Hf : removed ∈ spec.newest_first fnmatch pattern entries)
          by by apply files_elem.
        rewrite <- (take_drop (Z.to_nat keep_recent)) in Hf.
        apply elem_of_app in Hf as [Hf|Hf]; [|done].
        exfalso. apply Hout, Hnames. apply list_elem_of_filter.
        split; [right; by left|done].
      - exfalso. apply Hout, Hnames. apply list_elem_of_filter.
        split; [by left|done]. }
    pose proof (sorted_reverse_descending mtime
                  (glob fnmatch pattern entries)) as Hsorted.
    unfold spec.descending in Hsorted.
    fold (spec.newest_first fnmatch pattern entries) in Hsorted.
    rewrite <- (take_drop (Z.to_nat keep_recent)) in Hsorted.
    by apply (StronglySorted_app_elems _ _ _ kept removed) in Hsorted.
Qed.

Lemma cleanup_removes_oldest_witness :
  name (utils.mk_entry "reel_frame.jpg" (Some 200%Z) true)
    ∈ name <$> [utils.mk_entry "old.jpg" (Some 50%Z) false;
                utils.mk_entry "reel_frame.jpg" (Some 200%Z) true;
                utils.mk_entry "reel.mp4" (Some 210%Z) true]
  /\ (mtime (utils.mk_entry "stale_frame.jpg" (Some 80%Z) true)
      <= mtime (utils.mk_entry "reel_frame.jpg" (Some 200%Z) true))%Z.
Proof.
  apply (cleanup_removes_oldest fixtures.fnmatch_star
           (fixtures.clock_at 300)
           fixtures.busy_directory _ "*" 2
           (utils.mk_entry "stale_frame.jpg" (Some 80%Z) true)
           (utils.mk_entry "reel_frame.jpg" (Some 200%Z) true)).
  - lia.
  - apply (bool_decide_unpack _). by vm_compute.
  - reflexivity.
  - reflexivity.
  - apply (bool_decide_unpack _). by vm_compute.
  - apply (bool_decide_unpack _). by vm_compute.
  - apply (bool_decide_unpack _). by vm_compute.
Defined.

(** X7: with at least one attempt allowed, the wrapper never falls out
    of its loop: it returns the value of an attempt or raises, and the
    [return None] after the loop is not reached.  With no attempt allowed
    it calls nothing and returns [None]. *)
Theorem retry_returns_a_result {X : Type} (E : External X) {A : Type}
    (max_attempts : Z) (delay backoff : Qc) (func : M X A) (w : World X) :
  if (0 <? max_attempts)%Z then
    match retry E max_attempts delay backoff func w with
    | (Return r, _) => is_Some r
    | (Raise _, _) => True
    end
  else retry E max_attempts delay backoff func w = (Return None, w).
Proof.
  destruct (Z.ltb_spec 0 max_attempts) as [Hpos|Hle].
  - unfold retry.
    destruct (retry_loop_spec E max_attempts delay backoff func
                (Z.to_nat max_attempts) 0 w w)
      as (k & wk & Hk & Hc & Ho); [lia|lia|constructor|].
    replace (delay * backoff ^ 0)%Qc with delay in Ho by (simpl; ring).
    unfold spec.retry_outcome in Ho. change (Z.of_nat 0) with 0%Z in Ho.
    destruct (func wk) as [[v|e] w'].
    + rewrite Ho. by eexists.
    + destruct (is_Exception e); [destruct Ho as [_ ->]|rewrite Ho]; done.
  - unfold retry. replace (Z.to_nat max_attempts) with 0%nat by lia. done.
Qed.

(** A relation between the world before and the world after that holds
    across every step of the wrapper holds across the wrapped call when
    it holds across the function. *)
Section RetryPreserves.
Context {X : Type} (E : External X) {A : Type}.
Variable R : World X -> World X -> Prop.
Hypothesis R_refl : forall w, R w w.
Hypothesis R_trans : forall w1 w2 w3, R w1 w2 -> R w2 w3 -> R w1 w3.
Hypothesis R_log : forall lv msg exc w, R w (emit (Log lv msg exc) w).
Hypothesis R_sleep : forall d w, R w (emit (Sleep d) w).
Hypothesis R_ext : forall x w, R w (with_ext x w).
Variables (max_attempts : Z) (backoff : Qc) (func : M X A).
Hypothesis R_func : forall w, R w (func w).2.

Lemma retry_loop_preserves (fuel : nat) :
  forall (attempt : Z) (d : Qc) (w : World X),
    R w (retry_loop E fuel max_attempts backoff func attempt d w).2.
Proof.
  induction fuel as [|fuel IH]; intros attempt d w; [apply R_refl|].
  cbn [retry_loop]. destruct (attempt <? max_attempts)%Z; [|apply R_refl].
  unfold mbind, M_bind, bind, catching.
  pose proof (R_func w) as Hf.
  destruct (func w) as [[v|e] w']; simpl in Hf; [done|].
  destruct (is_Exception e); [|done].
  destruct (attempt + 1 >=? max_attempts)%Z.
  - unfold logger, modify, raise. simpl. eauto.
  - unfold logger, modify, sleep. cbv beta iota.
    eapply R_trans; [|apply IH]. eauto.
Qed.

Lemma retry_preserves (delay : Qc) (w : World X) :
  R w (retry E max_attempts delay backoff func w).2.
Proof. apply retry_loop_preserves. Qed.

End RetryPreserves.

(** What the wrapper returns or raises, an attempt returned or raised. *)
Lemma retry_inv {X : Type} (E : External X) {A : Type}
    (max_attempts : Z) (delay backoff : Qc) (func : M X A)
    (w : World X) :
  match retry E max_attempts delay backoff func w with
  | (Return (Some v), w') => exists wk, func wk = (Return v, w')
  | (Return None, _) => True
  | (Raise e, _) => exists wk wk', func wk = (Raise e, wk')
  end.
Proof.
  destruct (Z.ltb_spec 0 max_attempts) as [Hpos|Hle].
  - unfold retry.
    destruct (retry_loop_spec E max_attempts delay backoff func
                (Z.to_nat max_attempts) 0 w w)
      as (k & wk & Hk & Hc & Ho); [lia|lia|constructor|].
    replace (delay * backoff ^ 0)%Qc with delay in Ho by (simpl; ring).
    unfold spec.retry_outcome in Ho. change (Z.of_nat 0) with 0%Z in Ho.
    destruct (func wk) as [[v|e] w1] eqn:Hf.
    + rewrite Ho. by exists wk.
    + destruct (is_Exception e); [destruct Ho as [_ ->]|rewrite Ho];
        by exists wk, w1.
  - unfold retry. replace (Z.to_nat max_attempts) with 0%nat by lia. done.
Qed.

End utils_more.

(* ===================================================================== *)
(** * More about src/content_generator.py *)
(* ===================================================================== *)

Module content_more.
Import Runtime_facts utils utils_facts content_generator content_facts
  caption_facts.

Section Cache.
Context {X : Type} (E : External X).
Variable cache_ttl : Z.

(** X8: what [_set_cache] stores, [_get_cached] gives back as long as the
    clock has advanced by less than the time to live; from then on it
    gives [None] and forgets the entry. *)
Theorem cache_round_trip (key : string) (value : gmap string str)
    (w : World X) :
  (_set_cache E key value ≫= fun _ => _get_cached E cache_ttl key) w
  = let '(stored_at, x1) := datetime_now E (ext w) in
    let '(read_at, x2) := datetime_now E x1 in
    if (read_at - stored_at <? cache_ttl)%Z
    then (Return (Some value),
          with_ext x2
            (with_cache (<[key := (value, stored_at)]> (cg_cache w)) w))
    else (Return None,
          with_ext x2 (with_cache (delete key (cg_cache w)) w)).
Proof.
  unfold _set_cache, _get_cached. unfold_M.
  destruct (datetime_now E (ext w)) as [t1 x1] eqn:H1. simpl.
  rewrite lookup_insert_eq. simpl.
  destruct (datetime_now E x1) as [t2 x2] eqn:H2. simpl.
  destruct (t2 - t1 <? cache_ttl)%Z; simpl; [done|].
  by rewrite delete_insert_eq.
Qed.

(** The bodies of the two sources let no [Exception] out. *)
Lemma get_nasa_apod_body_no_Exception (w w' : World X) (e : exn) :
  get_nasa_apod_body E cache_ttl w = (Raise e, w') ->
  is_Exception e = false.
Proof.
  unfold get_nasa_apod_body, _get_cached, _set_cache. unfold_M.
  intros H. destruct_run H; by simplify_eq.
Qed.

Lemma get_trending_space_news_body_no_Exception (w w' : World X)
    (e : exn) :
  get_trending_space_news_body E cache_ttl w = (Raise e, w') ->
  is_Exception e = false.
Proof.
  unfold get_trending_space_news_body, _get_cached, _set_cache. unfold_M.
  intros H. destruct_run H; by simplify_eq.
Qed.

Lemma get_nasa_apod_unfold (w : World X) :
  get_nasa_apod E cache_ttl w = get_nasa_apod_body E cache_ttl w.
Proof.
  unfold get_nasa_apod.
  destruct (get_nasa_apod_body E cache_ttl w) as [[r|e] w1] eqn:Hb.
  - erewrite bind_Return
      by (by apply retry_first_attempt_returns; [lia|exact Hb]).
    done.
  - apply get_nasa_apod_body_no_Exception in Hb as He.
    erewrite bind_Raise; [done|].
    by apply retry_first_attempt_interrupted; [lia|exact Hb|].
Qed.

Lemma get_trending_space_news_unfold (w : World X) :
  get_trending_space_news E cache_ttl w
  = get_trending_space_news_body E cache_ttl w.
Proof.
  unfold get_trending_space_news.
  destruct (get_trending_space_news_body E cache_ttl w)
    as [[r|e] w1] eqn:Hb.
  - erewrite bind_Return
      by (by apply retry_first_attempt_returns; [lia|exact Hb]).
    done.
  - apply get_trending_space_news_body_no_Exception in Hb as He.
    erewrite bind_Raise; [done|].
    by apply retry_first_attempt_interrupted; [lia|exact Hb|].
Qed.

(** X9: the retry decorators of the two content sources never make a
    second attempt.  Each body turns every [Exception] into [None]
    itself, so a call of a source is one run of its body, without a retry
    and without a sleep, whatever the network does. *)
Theorem sources_never_retry (w : World X) :
  get_nasa_apod E cache_ttl w = get_nasa_apod_body E cache_ttl w
  /\ get_trending_space_news E cache_ttl w
     = get_trending_space_news_body E cache_ttl w
  /\ match get_nasa_apod E cache_ttl w with
     | (Raise e, _) => is_Exception e = false
     | _ => True
     end
  /\ match get_trending_space_news E cache_ttl w with
     | (Raise e, _) => is_Exception e = false
     | _ => True
     end.
Proof.
  split_and!.
  - apply get_nasa_apod_unfold.
  - apply get_trending_space_news_unfold.
  - rewrite get_nasa_apod_unfold.
    destruct (get_nasa_apod_body E cache_ttl w) as [[r|e] w'] eqn:Hb;
      [done|]. by eapply get_nasa_apod_body_no_Exception.
  - rewrite get_trending_space_news_unfold.
    destruct (get_trending_space_news_body E cache_ttl w)
      as [[r|e] w'] eqn:Hb; [done|].
    by eapply get_trending_space_news_body_no_Exception.
Qed.

(** X10: a record that a content source returns is in the cache
    afterwards, under the key of the source ([get_nasa_apod] has one key
    a day); when a source returns [None] it has added nothing to the
    cache, so a failure is never cached. *)
Theorem fetched_record_is_cached (w : World X) :
  match get_nasa_apod E cache_ttl w with
  | (Return (Some record), w') =>
      exists timestamp,
        cg_cache w'
          !! ("nasa_apod_" +:+ strftime_ymd E (datetime_now E (ext w)).1)
        = Some (record, timestamp)
  | (Return None, w') => cg_cache w' ⊆ cg_cache w
  | (Raise _, _) => True
  end
  /\ match get_trending_space_news E cache_ttl w with
     | (Return (Some record), w') =>
         exists timestamp,
           cg_cache w' !! "space_news" = Some (record, timestamp)
     | (Return None, w') => cg_cache w' ⊆ cg_cache w
     | (Raise _, _) => True
     end.
Proof.
  split.
  - rewrite get_nasa_apod_unfold.
    destruct (get_nasa_apod_body E cache_ttl w)
      as [[[record|]|e] w'] eqn:H; [| |done].
    + unfold get_nasa_apod_body, _get_cached, _set_cache in H. unfold_M.
      destruct (datetime_now E (ext w)) as [t x0] eqn:Hnow. simpl in *.
      destruct_run H; simplify_eq; simpl; eauto;
        eexists; apply lookup_insert_eq.
    + unfold get_nasa_apod_body, _get_cached, _set_cache in H. unfold_M.
      destruct (datetime_now E (ext w)) as [t x0] eqn:Hnow. simpl in *.
      destruct_run H; simplify_eq; simpl; try done; apply delete_subseteq.
  - rewrite get_trending_space_news_unfold.
    destruct (get_trending_space_news_body E cache_ttl w)
      as [[[record|]|e] w'] eqn:H; [| |done].
    + unfold get_trending_space_news_body, _get_cached, _set_cache in H.
      unfold_M. simpl in *.
      destruct_run H; simplify_eq; simpl; eauto;
        eexists; apply lookup_insert_eq.
    + unfold get_trending_space_news_body, _get_cached, _set_cache in H.
      unfold_M. simpl in *.
      destruct_run H; simplify_eq; simpl; try done; apply delete_subseteq.
Qed.

(** X11: while the record of the day is in the cache and younger than the
    time to live, [get_nasa_apod] returns it without any request: the run
    reads the clock twice, logs one debug line and changes nothing
    else. *)
Theorem apod_cache_hit (w : World X) (record : gmap string str)
    (timestamp : Z) :
  let today := (datetime_now E (ext w)).1 in
  let x1 := (datetime_now E (ext w)).2 in
  cg_cache w !! ("nasa_apod_" +:+ strftime_ymd E today)
  = Some (record, timestamp) ->
  record <> ∅ ->
  ((datetime_now E x1).1 - timestamp < cache_ttl)%Z ->
  get_nasa_apod E cache_ttl w
  = (Return (Some record),
     emit (Log DEBUG "Returning cached NASA APOD" None)
          (with_ext (datetime_now E x1).2 w)).
Proof.
  intros today x1 Hhit Hrecord Hfresh. rewrite get_nasa_apod_unfold.
  unfold get_nasa_apod_body, _get_cached. unfold_M.
  subst today x1. destruct (datetime_now E (ext w)) as [t x1].
  cbn [fst snd] in *.
  change (cg_cache (with_ext x1 w)) with (cg_cache w). rewrite Hhit.
  change (ext (with_ext x1 w)) with x1.
  destruct (datetime_now E x1) as [t1 x2]. cbn [fst snd] in *.
  apply Z.ltb_lt in Hfresh. rewrite Hfresh. cbn [truthy].
  by rewrite bool_decide_eq_false_2.
Qed.

(** X12: the record of [get_content_for_reel] names a picture exactly
    when its type is 'apod': an 'apod' record has a non-empty
    [image_url], and a 'news' or 'default' record has [None] there. *)
Theorem reel_content_image_url (w : World X) :
  match get_content_for_reel E cache_ttl w with
  | (Return r, _) =>
      (r !! "type" = Some (Some (lit "apod"))
       /\ exists url, r !! "image_url" = Some (Some url) /\ url <> [])
      \/ ((r !! "type" = Some (Some (lit "news"))
           \/ r !! "type" = Some (Some (lit "default")))
          /\ r !! "image_url" = Some None)
  | (Raise _, _) => True
  end.
Proof.
  unfold get_content_for_reel.
  destruct (get_nasa_apod E cache_ttl w) as [[apod|e] w1] eqn:Hapod;
    [erewrite bind_Return by exact Hapod
    |by erewrite bind_Raise by exact Hapod].
  cbv beta.
  destruct (truthy apod && truthy_str (default ∅ apod !! "image_url"))
    eqn:Hcond.
  - apply andb_prop in Hcond as [Ht Hurl].
    destruct apod as [d|]; [|done]. simpl in Hurl. simpl default.
    unfold getitem.
    destruct (d !! "title") as [title|]; [|done].
    destruct (d !! "image_url") as [[|c url]|] eqn:Hu; [done| |done].
    unfold_M. left. split; [done|]. by exists (c :: url).
  - destruct (get_trending_space_news E cache_ttl w1)
      as [[news|e] w2] eqn:Hnews;
      [erewrite bind_Return by exact Hnews
      |by erewrite bind_Raise by exact Hnews].
    cbv beta. destruct (truthy news) eqn:Htn.
    + destruct news as [d|]; [|done]. simpl default. unfold getitem.
      destruct (d !! "title") as [title|]; [|done].
      unfold_M. right. split; [by left|done].
    + unfold_M. right. split; [by right|done].
Qed.

End Cache.

Lemma apod_cache_hit_witness :
  get_nasa_apod fixtures.offline 3600 (fixtures.warm 0%Qc)
  = (Return (Some fixtures.nebula),
     emit (Log DEBUG "Returning cached NASA APOD" None)
          (fixtures.warm 0%Qc)).
Proof.
  apply (apod_cache_hit fixtures.offline 3600 (fixtures.warm 0%Qc)
           fixtures.nebula 0).
  - reflexivity.
  - intros Heq. apply (f_equal (fun d => d !! "title")) in Heq.
    by vm_compute in Heq.
  - simpl. lia.
Defined.

(** The tags that [re.sub] removes are taken out of the text and nothing
    is put in their place. *)
Lemma strip_tags_from_sublist (s : str) :
  forall skip, strip_tags_from skip s `sublist_of` s.
Proof.
  induction s as [|c s IH]; intros skip; [done|].
  simpl. destruct skip as [|k].
  - destruct (c =? LT)%N.
    + destruct (tag_end s) as [n|].
      * by apply sublist_cons.
      * by apply sublist_skip.
    + by apply sublist_skip.
  - by apply sublist_cons.
Qed.

Lemma strip_tags_from_no_tag (s : str) :
  contains LT s = false -> strip_tags_from 0 s = s.
Proof.
  induction s as [|c s IH]; [done|].
  unfold contains in *. cbn [existsb strip_tags_from].
  rewrite (N.eqb_sym LT c).
  destruct (c =? LT)%N; [done|]. cbn [orb]. intros H. by rewrite IH.
Qed.

(** X13: cleaning the HTML tags only deletes characters: the cleaned text
    is the original with some characters left out, in the original order;
    and the test for ['<'] that guards the cleaning is an optimisation
    only, since a text without ['<'] is left as it is. *)
Theorem re_sub_tags_only_deletes (s : str) :
  re_sub_tags s `sublist_of` s
  /\ (if contains LT s then re_sub_tags s else s) = re_sub_tags s.
Proof.
  split; [apply strip_tags_from_sublist|].
  destruct (contains LT s) eqn:Hc; [done|].
  symmetry. by apply strip_tags_from_no_tag.
Qed.

Lemma truncate_explanation_length (explanation : str) :
  (length (truncate_explanation explanation) <= 2003)%nat.
Proof.
  unfold truncate_explanation, max_caption_length.
  destruct (Z.gtb_spec (Z.of_nat (length explanation)) 2000) as [Hlen|Hlen];
    [|lia].
  change (slice_to 2000 explanation) with (take 2000 explanation).
  assert (Htake : length (take 2000 explanation) = 2000%nat)
    by (rewrite length_take; lia).
  unfold rsplit1. rewrite length_app.
  change (length (lit "...")) with 3%nat.
  destruct (rcut SPACE (take 2000 explanation)) as [[a b]|] eqn:Hr.
  - apply rcut_Some in Hr as [Ha _]. simpl first.
    rewrite Ha, length_app in Htake. simpl in Htake. lia.
  - simpl first. lia.
Qed.

(** X14: the caption is the title line, the explanation, the call to
    follow and ten hashtags, and has at most 2171 characters more than
    the title: it stays within the 2200 characters Instagram allows
    whenever the title has at most 29 characters. *)
Theorem build_caption_length (content : gmap string str) :
  (length (build_caption content)
   <= length (dict_get content "title" (lit "Space Update")) + 2171)%nat
  /\ exists explanation : str,
       (length explanation <= 2003)%nat
       /\ build_caption content
          = [ROCKET; SPACE] ++ dict_get content "title" (lit "Space Update")
            ++ [NEWLINE; NEWLINE] ++ explanation ++ [NEWLINE; NEWLINE]
            ++ lit "Follow @ventureuniverse for daily space updates! "
            ++ [MILKY_WAY; SPARKLES] ++ [NEWLINE; NEWLINE]
            ++ join [SPACE] (take 10 config.BASE_HASHTAGS).
Proof.
  unfold build_caption.
  set (explanation := truncate_explanation _).
  assert (Hlen : (length explanation <= 2003)%nat)
    by apply truncate_explanation_length.
  clearbody explanation.
  change (slice_to 10 config.BASE_HASHTAGS)
    with (take 10 config.BASE_HASHTAGS).
  set (tags := join [SPACE] (take 10 config.BASE_HASHTAGS)).
  assert (Htags : length tags = 109%nat) by by vm_compute.
  clearbody tags.
  assert (Heq :
    join [NEWLINE]
      [[ROCKET; SPACE] ++ dict_get content "title" (lit "Space Update");
       []; explanation; [];
       lit "Follow @ventureuniverse for daily space updates! "
         ++ [MILKY_WAY; SPARKLES];
       []; tags]
    = [ROCKET; SPACE] ++ dict_get content "title" (lit "Space Update")
      ++ [NEWLINE; NEWLINE] ++ explanation ++ [NEWLINE; NEWLINE]
      ++ lit "Follow @ventureuniverse for daily space updates! "
      ++ [MILKY_WAY; SPARKLES] ++ [NEWLINE; NEWLINE] ++ tags).
  { cbn [join]. by rewrite <- !app_assoc. }
  rewrite Heq. split; [|by exists explanation].
  rewrite !length_app.
  change (length (lit "Follow @ventureuniverse for daily space updates! "))
    with 49%nat.
  rewrite Htags. simpl. lia.
Qed.

(** X15: the [content_type] of the result names the requested source
    only when that source delivered; after a failure of the requested
    source it names the other one, also when the other source failed too
    and the content is the hard-coded text. *)
Theorem generate_caption_content_type {X : Type} (E : External X)
    (cache_ttl : Z) (requested : string) (w : World X) :
  match generate_caption E cache_ttl requested w,
        spec.requested_source E cache_ttl requested w with
  | (Return d, _), (Return c1, _) =>
      content_type d
      = if truthy c1 then requested
        else if bool_decide (requested = "apod") then "news" else "apod"
  | _, _ => True
  end.
Proof.
  unfold generate_caption, spec.requested_source.
  set (apod := get_nasa_apod E cache_ttl).
  set (news := get_trending_space_news E cache_ttl).
  clearbody apod news. unfold_M.
  destruct (bool_decide (requested = "apod")).
  - destruct (apod w) as [[c1|e] w1]; [|done]. simpl.
    destruct (truthy c1) eqn:Ht1; simpl; [by rewrite Ht1|].
    destruct (news w1) as [[c2|e] w2]; [|done]. simpl.
    destruct (truthy c2); simpl; [done|].
    by destruct (datetime_now E (ext w2)).
  - destruct (news w) as [[c1|e] w1]; [|done]. simpl.
    destruct (truthy c1) eqn:Ht1; simpl; [by rewrite Ht1|].
    destruct (apod w1) as [[c2|e] w2]; [|done]. simpl.
    destruct (truthy c2); simpl; [done|].
    by destruct (datetime_now E (ext w2)).
Qed.

End content_more.

(* ===================================================================== *)
(** * More about src/instagram_bot.py *)
(* ===================================================================== *)

Module instagram_bot_more.
Import Runtime_facts utils utils_facts utils_more instagram_bot
  instagram_bot_facts instagram_session.

Section Bot.
Context {X : Type} (E : External X).
Variables (username password session_file : string).

(** X16: [login] makes one attempt: its body turns every [Exception]
    into [False], so the decorator has nothing to retry.  The value it
    returns is the logged-in flag it leaves behind, and a [True] comes
    with a call to the service made during the run, the check of the
    saved session or the fresh login, while a [False] is logged as an
    error last of all. *)
Theorem login_result (w : World X) :
  login E username password session_file w
  = login_body E username password session_file w
  /\ match login E username password session_file w with
     | (Return b, w1) =>
         bot_is_logged_in w1 = b
         /\ (if b then
               exists new,
                 trace w1 = trace w ++ new
                 /\ (Call ClientAccountInfo ∈ new
                     \/ Call (ClientLogin username password) ∈ new)
             else
               exists msg exc, last (trace w1) = Some (Log ERROR msg exc))
     | (Raise e, _) => is_Exception e = false
     end.
Proof.
  split; [apply login_unfold|]. rewrite login_unfold.
  destruct (login_body E username password session_file w)
    as [[b|e] w1] eqn:Hb.
  - split; [exact (login_body_flag E username password session_file
                     w w1 (Return b) Hb)|].
    revert Hb.
    unfold instagram_bot.login_body, os_path_exists. unfold_M.
    intros H. destruct b.
    + destruct_run H; simplify_eq; simpl; rewrite <- ?app_assoc;
        eexists; (split; [reflexivity|]); set_solver.
    + destruct_run H; simplify_eq; simpl; rewrite ?last_snoc; eauto.
  - exact (login_body_flag E username password session_file
             w w1 (Raise e) Hb).
Qed.

(** X17: [is_logged_in] never raises, whatever the service does: it
    answers true exactly when the flag is up and [account_info] returns,
    asks the service nothing when the flag is down, and leaves the flag
    equal to its answer. *)
Theorem is_logged_in_total (w : World X) :
  exists (b : bool) (w' : World X),
    is_logged_in E w = (Return b, w')
    /\ bot_is_logged_in w' = b
    /\ b = bot_is_logged_in w
           && match (client_account_info E (ext w)).1 with
              | Return _ => true
              | Raise _ => false
              end
    /\ trace w' = trace w ++ (if bot_is_logged_in w
                              then [Call ClientAccountInfo] else []).
Proof.
  unfold is_logged_in. unfold_M.
  destruct (bot_is_logged_in w) eqn:Hflag; simpl.
  - destruct (client_account_info E (ext w)) as [[[]|e] x'] eqn:Hinfo;
      simpl; eexists _, _; (split; [reflexivity|]); simpl; by rewrite ?Hflag.
  - eexists _, _. split; [reflexivity|]. by rewrite Hflag, app_nil_r.
Qed.

Lemma login_raises (w w1 : World X) (e : exn) :
  login E username password session_file w = (Raise e, w1) ->
  is_Exception e = false.
Proof.
  rewrite login_unfold. intros Hb.
  exact (login_body_flag E username password session_file w w1 (Raise e) Hb).
Qed.

Lemma get_profile_pic_body_raises (save_path : string) (w w1 : World X)
    (e : exn) :
  get_profile_pic_body E username password session_file save_path w
  = (Raise e, w1) ->
  is_Exception e = false
  \/ e = mk_exn Exception "Failed to login to Instagram".
Proof.
  unfold get_profile_pic_body, _ensure_login.
  pose proof login_raises as Hl.
  set (lg := login E username password session_file) in *. clearbody lg.
  unfold_M. intros H.
  destruct_run H; simplify_eq; eauto.
Qed.

(** X18: a failed download never makes [get_profile_pic] raise: the only
    [Exception] it lets out is the one of a failed login. *)
Theorem get_profile_pic_raises (save_path : string) (w : World X) :
  match get_profile_pic E username password session_file save_path w with
  | (Return _, _) => True
  | (Raise e, _) =>
      is_Exception e = false
      \/ e = mk_exn Exception "Failed to login to Instagram"
  end.
Proof.
  unfold get_profile_pic. unfold mbind, M_bind, bind.
  pose proof (retry_inv E 2 (Qc_of_Z 2) default_backoff
                (get_profile_pic_body E username password session_file
                   save_path) w) as Hinv.
  destruct (retry E 2 (Qc_of_Z 2) default_backoff _ w) as [[r|e] w1];
    [done|].
  destruct Hinv as (wk & wk' & Hbody).
  by eapply get_profile_pic_body_raises.
Qed.

End Bot.

Section Logout.
Context {X : Type} (client_logout : X -> result bool * X).

(** X19: [logout] never raises and always leaves the bot logged out,
    also when the service call fails or is interrupted; a bot that is
    not logged in is left as it is, without a call. *)
Theorem logout_total (w : World X) :
  exists w' : World X,
    logout client_logout w = (Return tt, w')
    /\ bot_is_logged_in w' = false
    /\ if bot_is_logged_in w
       then ext w' = (client_logout (ext w)).2
       else w' = w.
Proof.
  unfold logout, call. unfold_M. destruct w as [x tr flag c b1 b2 b3].
  destruct flag; simpl.
  - destruct (client_logout x) as [[r|e] x']; simpl;
      eexists; (split; [reflexivity|]); done.
  - eexists. split; [reflexivity|]. done.
Qed.

End Logout.

End instagram_bot_more.

(* ===================================================================== *)
(** * More about src/scheduler.py *)
(* ===================================================================== *)

Module scheduler_more.
Import Runtime_facts utils utils_facts utils_more content_generator
  content_facts instagram_bot instagram_bot_facts scheduler.

Section Frame.
Context {X : Type} (E : External X).
Variables (username password session_file : string).

Lemma generate_caption_caption (cache_ttl : Z) (content_type : string)
    (w w' : World X) (d : caption_data) :
  generate_caption E cache_ttl content_type w = (Return d, w') ->
  caption d <> [].
Proof.
  intros Hrun.
  assert (Hcap : exists content0, caption d = build_caption content0).
  { unfold generate_caption in Hrun. unfold_M.
    destruct_run Hrun; simplify_eq; by eexists. }
  destruct Hcap as [content0 ->]. apply build_caption_nonempty.
Qed.

(** An attempt of [post_reel] that returns has just uploaded. *)
Lemma post_reel_body_returns (video_path : string) (caption : str)
    (w w' : World X) (media : Media) :
  post_reel_body E username password session_file video_path caption w
  = (Return media, w') ->
  exists before,
    trace w'
    = before ++ [Log INFO "Uploading reel" None;
                 Log DEBUG "Caption preview" None;
                 Call (ClientClipUpload video_path caption);
                 Log INFO "Reel posted successfully!" None].
Proof.
  assert (Hblock : forall w1,
    upload_block E video_path caption w1 = (Return media, w') ->
    exists before,
      trace w'
      = before ++ [Log INFO "Uploading reel" None;
                   Log DEBUG "Caption preview" None;
                   Call (ClientClipUpload video_path caption);
                   Log INFO "Reel posted successfully!" None]).
  { intros w1. rewrite upload_block_spec.
    destruct (files E (ext w1) !! video_path) as [size|]; [|done].
    destruct (spec.size_ceiling <? size)%Z; [done|].
    unfold spec.upload. cbn [ext emit with_ext].
    destruct (client_clip_upload E video_path caption (ext w1))
      as [[m|e] x']; [|by destruct (is_Exception e)].
    intros [= <- <-]. exists (trace w1). simpl.
    by rewrite <- !app_assoc. }
  unfold post_reel_body, _ensure_login.
  set (lg := login E username password session_file). clearbody lg.
  set (ub := upload_block E video_path caption) in *. clearbody ub.
  unfold_M. intros H. destruct_run H; simplify_eq; eauto.
Qed.

Lemma post_reel_returns (video_path : string) (caption : str)
    (w w' : World X) (media : Media) :
  post_reel E username password session_file video_path caption w
  = (Return (Some media), w') ->
  exists before,
    trace w'
    = before ++ [Log INFO "Uploading reel" None;
                 Log DEBUG "Caption preview" None;
                 Call (ClientClipUpload video_path caption);
                 Log INFO "Reel posted successfully!" None].
Proof.
  intros H. unfold post_reel in H.
  pose proof (retry_inv E 2 (Qc_of_Z 5) default_backoff
                (post_reel_body E username password session_file
                   video_path caption) w) as Hinv.
  rewrite H in Hinv. destruct Hinv as [wk Hbody].
  by eapply post_reel_body_returns.
Qed.

End Frame.

Section Scheduler.
Context {X : Type} (E : External X).
Variables (INSTAGRAM_USERNAME INSTAGRAM_PASSWORD : string).
Variable PROFILE_PIC_PATH : string.

#[local] Abbreviation _initialize_components :=
  (scheduler._initialize_components E INSTAGRAM_USERNAME INSTAGRAM_PASSWORD
     PROFILE_PIC_PATH).
#[local] Abbreviation post_daily_reel_body :=
  (scheduler.post_daily_reel_body E INSTAGRAM_USERNAME INSTAGRAM_PASSWORD
     PROFILE_PIC_PATH).
#[local] Abbreviation post_daily_reel :=
  (scheduler.post_daily_reel E INSTAGRAM_USERNAME INSTAGRAM_PASSWORD
     PROFILE_PIC_PATH).

(** [_ensure_profile_picture] stops at its first line. *)
Lemma ensure_profile_picture_raises (w : World X) :
  scheduler._ensure_profile_picture E INSTAGRAM_USERNAME
    INSTAGRAM_PASSWORD PROFILE_PIC_PATH w
  = (Raise (mk_exn AttributeError
              "type object 'Config' has no attribute 'USE_LOGO'"), w).
Proof. reflexivity. Qed.

Lemma initialize_components_false (w w' : World X) (b : bool) :
  _initialize_components w = (Return b, w') -> b = false.
Proof.
  unfold scheduler._initialize_components, config.validate,
    scheduler._ensure_profile_picture, config.USE_LOGO, config.LOGO_PATH.
  unfold_M. intros H. simpl in H. destruct_run H; by simplify_eq.
Qed.

(** X20: with [Config] as it is, [_initialize_components] never returns
    true and never builds the reel generator: it returns false with the
    failure as the last line of the log and [reel_gen] as it was, or lets
    out an exception that is not an [Exception].  With both credentials
    set and the two constructors returning, it builds the bot and the
    content generator, then logs the [AttributeError] of
    [Config.USE_LOGO] and returns false. *)
Theorem initialize_components_result (w : World X) :
  match _initialize_components w with
  | (Return b, w') =>
      b = false
      /\ sched_reel_gen w' = sched_reel_gen w
      /\ exists e,
           last (trace w')
           = Some (Log ERROR "Failed to initialize components" (Some e))
  | (Raise e, _) => is_Exception e = false
  end
  /\ match new_client E (ext w) with
     | (Return _, x1) =>
         match new_session E x1 with
         | (Return _, x2) =>
             if bool_decide (INSTAGRAM_USERNAME = EmptyString)
                || bool_decide (INSTAGRAM_PASSWORD = EmptyString)
             then True
             else
               _initialize_components w
               = (Return false,
                  emit (Log ERROR "Failed to initialize components"
                          (Some (mk_exn AttributeError
                                   "type object 'Config' has no attribute 'USE_LOGO'")))
                       (mkWorld x2
                          (trace w ++ [Call NewClient; Call NewSession])
                          false ∅ true true (sched_reel_gen w)))
         | (Raise _, _) => True
         end
     | (Raise _, _) => True
     end.
Proof.
  unfold scheduler._initialize_components, config.validate,
    scheduler._ensure_profile_picture, config.USE_LOGO, config.LOGO_PATH.
  unfold_M. split.
  - destruct (bool_decide (INSTAGRAM_USERNAME = EmptyString)
              || bool_decide (INSTAGRAM_PASSWORD = EmptyString)); simpl.
    { split_and!; [done|done|]. rewrite last_snoc. eauto. }
    destruct (new_client E (ext w)) as [[[]|e] x1]; simpl.
    + destruct (new_session E x1) as [[[]|e] x2]; simpl.
      * split_and!; [done|done|]. rewrite last_snoc. eauto.
      * destruct (is_Exception e) eqn:He; simpl; [|done].
        split_and!; [done|done|]. rewrite last_snoc. eauto.
    + destruct (is_Exception e) eqn:He; simpl; [|done].
      split_and!; [done|done|]. rewrite last_snoc. eauto.
  - destruct (new_client E (ext w)) as [[[]|e] x1] eqn:Hc; [|done].
    destruct (new_session E x1) as [[[]|e] x2] eqn:Hs; [|done].
    destruct (bool_decide (INSTAGRAM_USERNAME = EmptyString)
              || bool_decide (INSTAGRAM_PASSWORD = EmptyString));
      [done|].
    simpl. rewrite Hc. simpl. rewrite Hs. simpl.
    unfold emit, with_cache, with_components, with_ext, with_logged_in.
    simpl. by rewrite <- !app_assoc.
Qed.

(** A run of the [try] block that returns true started with the three
    components set and ends with the upload. *)
Lemma post_daily_reel_body_true (w w' : World X) :
  post_daily_reel_body w = (Return true, w') ->
  sched_bot w && sched_content_gen w && sched_reel_gen w = true
  /\ exists before video_path caption,
       caption <> []
       /\ trace w' = before ++ spec.upload_reported video_path caption.
Proof.
  unfold scheduler.post_daily_reel_body.
  pose proof (generate_caption_caption E 3600 "apod") as Hcap.
  assert (Hpost : forall video_path caption w0 w1 media,
    bot_post_reel E INSTAGRAM_USERNAME INSTAGRAM_PASSWORD video_path
      caption w0 = (Return (Some media), w1) ->
    exists before,
      trace w1
      = before ++ [Log INFO "Uploading reel" None;
                   Log DEBUG "Caption preview" None;
                   Call (ClientClipUpload video_path caption);
                   Log INFO "Reel posted successfully!" None])
    by (intros; by eapply post_reel_returns).
  pose proof initialize_components_false as Hic.
  fold (content_gen_generate_caption E) in Hcap.
  set (gc := content_gen_generate_caption E) in *.
  set (bp := bot_post_reel E INSTAGRAM_USERNAME INSTAGRAM_PASSWORD) in *.
  set (ic := _initialize_components) in *.
  set (il := scheduler.bot_is_logged_in E).
  set (lg := bot_login E INSTAGRAM_USERNAME INSTAGRAM_PASSWORD).
  set (cr := content_gen_get_content_for_reel E).
  set (vv := validate_video_file E).
  clearbody gc bp ic il lg cr vv.
  unfold_M. intros H.
  destruct (sched_bot w && sched_content_gen w && sched_reel_gen w) eqn:Hr;
    simpl in H.
  - split; [done|]. destruct_run H; simplify_eq.
    all: match goal with
         | Hp : _ = (Return (Some _), _) |- _ =>
             apply Hpost in Hp as [before Hp];
             unfold spec.upload_reported; eexists before, _, _;
             (split; [|simpl; rewrite Hp, <- !app_assoc; reflexivity]);
             eapply Hcap; eassumption
         end.
  - destruct (ic w) as [[b|e] w0] eqn:Hinit; simpl in H; [|done].
    apply Hic in Hinit as ->. simpl in H. by simplify_eq.
Qed.

(** X21: [post_daily_reel] reports success only for a scheduler whose
    three components were set when it was called, which the code itself
    never arranges, and then only after an upload: the events of the run
    end with the call of [clip_upload], with a caption that is not empty,
    followed by nothing but the messages that report it. *)
Theorem post_daily_reel_true_after_upload (w : World X) :
  match post_daily_reel w with
  | (Return true, w') =>
      sched_bot w && sched_content_gen w && sched_reel_gen w = true
      /\ exists before video_path caption,
           caption <> []
           /\ trace w' = before ++ spec.upload_reported video_path caption
  | _ => True
  end.
Proof.
  unfold scheduler.post_daily_reel.
  pose proof post_daily_reel_body_true as Hbody.
  set (body := post_daily_reel_body) in *. clearbody body.
  unfold_M. destruct (datetime_now E (ext w)) as [start_time x0]. simpl.
  match goal with |- context [body ?w0] => specialize (Hbody w0) end.
  destruct (body _) as [[[]|e] w1]; simpl; [by apply Hbody|done|].
  unfold is_KeyboardInterrupt, is_Exception.
  destruct e as [cls msg].
  destruct cls; simpl; try done; by destruct (datetime_now E (ext w1)).
Qed.

End Scheduler.

(** X22: without credentials nothing is built and nothing outside the
    process is touched: [_initialize_components] logs the
    [ValueError] of [Config.validate] and returns false. *)
Theorem initialize_components_without_credentials {X : Type}
    (E : External X)
    (INSTAGRAM_USERNAME INSTAGRAM_PASSWORD PROFILE_PIC_PATH : string)
    (w : World X) :
  INSTAGRAM_USERNAME = EmptyString \/ INSTAGRAM_PASSWORD = EmptyString ->
  scheduler._initialize_components E INSTAGRAM_USERNAME INSTAGRAM_PASSWORD
    PROFILE_PIC_PATH w
  = (Return false,
     emit (Log ERROR "Failed to initialize components"
             (Some (mk_exn ValueError
                      "Instagram credentials must be set in .env file")))
          w).
Proof.
  intros Hempty.
  unfold scheduler._initialize_components, config.validate.
  assert (bool_decide (INSTAGRAM_USERNAME = EmptyString)
          || bool_decide (INSTAGRAM_PASSWORD = EmptyString) = true) as ->.
  { destruct Hempty as [->| ->]; [done|]. by rewrite orb_true_r. }
  by unfold_M.
Qed.

Lemma initialize_components_without_credentials_witness :
  scheduler._initialize_components fixtures.offline "venture" EmptyString
    "profile_pic.jpg" (fixtures.fresh 0%Qc)
  = (Return false,
     emit (Log ERROR "Failed to initialize components"
             (Some (mk_exn ValueError
                      "Instagram credentials must be set in .env file")))
          (fixtures.fresh 0%Qc)).
Proof.
  apply (initialize_components_without_credentials fixtures.offline
           "venture" EmptyString "profile_pic.jpg" (fixtures.fresh 0%Qc)).
  by right.
Defined.

End scheduler_more.

(* ===================================================================== *)
(** * More about src/reel_generator.py: the text overlay *)
(* ===================================================================== *)

Module reel_frame_more.
Import Py_facts reel_generator reel_generator_facts reel_frame.

Section TextOverlay.
Variable Font : Type.
Variable textbbox : Font -> str -> Z * Z * Z * Z.
Variable medium : Font.

#[local] Abbreviation text_overlay := (text_overlay Font textbbox medium).
#[local] Abbreviation wrapped text :=
  (_wrap_text Font textbbox text medium 980).

Lemma wrapped_lines_ok (text : str) :
  Forall (spec.line_ok Font textbbox medium 980 (split text)) (wrapped text).
Proof.
  unfold _wrap_text. destruct (split text) as [|w ws] eqn:Hs; [done|].
  rewrite <- Hs.
  destruct (wrap_fold_widths Font textbbox medium 980
              (split text) (split text) [] []) as [Hl Hc];
    [done|done|by left|].
  destruct (foldl _ _ _) as [lines cur]. simpl in Hl, Hc.
  destruct cur as [|c cur]; [done|].
  apply Forall_app. split; [done|].
  constructor; [|done]. by destruct Hc.
Qed.

(** X23: the overlay draws the first three lines of the wrapped text and
    drops the rest; the lines are 50 pixels apart from the height 1300
    on; every line is centred to within one pixel, and stays 50 pixels
    away from the borders unless it is a single word of the text that is
    wider than 980 pixels. *)
Theorem text_overlay_layout (content_text : str) :
  map text_line (text_overlay content_text) = take 3 (wrapped content_text)
  /\ map text_y (text_overlay content_text)
     = take (length (text_overlay content_text)) [1300; 1350; 1400]%Z
  /\ Forall (spec.centred Font textbbox medium) (text_overlay content_text)
  /\ Forall (fun d =>
               spec.within_margins Font textbbox medium d
               \/ In (text_line d) (split content_text))
            (text_overlay content_text).
Proof.
  pose proof (wrapped_lines_ok content_text) as Hok.
  unfold reel_frame.text_overlay.
  change (REEL_WIDTH - 100)%Z with 980%Z.
  change (slice_to 3 (wrapped content_text))
    with (take 3 (wrapped content_text)).
  apply (Forall_take _ 3) in Hok.
  set (lines := take 3 (wrapped content_text)) in *.
  assert (Hlen : (length lines <= 3)%nat)
    by (unfold lines; rewrite length_take; lia).
  clearbody lines.
  destruct lines as [|l1 [|l2 [|l3 [|l4 lines]]]]; simpl in Hlen; try lia.
  all: simpl; split_and!; [done|done|..].
  all: repeat apply Forall_cons_2; try apply Forall_nil_2.
  all: repeat match goal with
              | H : Forall _ (_ :: _) |- _ =>
                  apply Forall_cons in H as [? H]
              end.
  all: try match goal with
           | H : spec.line_ok _ _ _ _ _ ?l
             |- _ \/ In ?l _ => destruct H as [H|H]; [left|by right]
           end.
  all: unfold spec.centred, spec.within_margins, text_width, REEL_WIDTH
         in *; simpl.
  all: match goal with
       | |- context [((1080 - ?a) `div` 2)%Z] =>
           pose proof (Z.div_mod (1080 - a) 2);
           pose proof (Z.mod_pos_bound (1080 - a) 2); lia
       end.
Qed.

End TextOverlay.

End reel_frame_more.

(* ===================================================================== *)
(** * How often a run uploads *)
(* ===================================================================== *)

Module upload_bound.
Import Runtime_facts utils utils_facts utils_more content_generator
  content_facts content_more instagram_bot instagram_bot_facts scheduler.

Lemma uploads_snoc (tr : list event) (ev : event) :
  spec.uploads (tr ++ [ev])
  = (spec.uploads tr + if spec.is_upload ev then 1 else 0)%nat.
Proof.
  unfold spec.uploads. rewrite filter_app, length_app. f_equal.
  rewrite filter_cons, filter_nil. destruct (spec.is_upload ev).
  - by rewrite decide_True.
  - by rewrite decide_False.
Qed.

(** The steps of a run, on the count of uploads. *)
Ltac count_steps :=
  unfold spec.uploads_within in *;
  cbn [trace ext emit with_ext with_logged_in with_cache with_components
       fst snd] in *;
  rewrite ?uploads_snoc in *;
  cbn [spec.is_upload] in *;
  lia.

(** What the run [He] of [f] did to the count, by the bound [Hq] on [f]. *)
Ltac counted f Hq :=
  repeat match goal with
         | He : f ?w0 = (_, _) |- _ =>
             let Hn := fresh "Hn" in
             pose proof (Hq w0) as Hn; rewrite He in Hn; clear He
         end.

Section Quiet.
Context {X : Type} (E : External X).

#[local] Abbreviation quiet m :=
  (forall w : World X, spec.uploads_within 0 w (m w).2).

Lemma uploads_within_refl (w : World X) : spec.uploads_within 0 w w.
Proof. unfold spec.uploads_within. lia. Qed.

Lemma uploads_within_trans (w1 w2 w3 : World X) :
  spec.uploads_within 0 w1 w2 -> spec.uploads_within 0 w2 w3 ->
  spec.uploads_within 0 w1 w3.
Proof. unfold spec.uploads_within. lia. Qed.

Lemma retry_quiet {A} (max_attempts : Z) (delay backoff : Qc)
    (func : M X A) :
  quiet func -> quiet (retry E max_attempts delay backoff func).
Proof.
  intros Hf w.
  apply (retry_preserves E (spec.uploads_within 0) uploads_within_refl
           uploads_within_trans); [..|exact Hf]; intros; count_steps.
Qed.

Section Bot.
Variables (username password session_file : string).

Lemma login_quiet : quiet (login E username password session_file).
Proof.
  intros w. rewrite login_unfold.
  destruct (instagram_bot.login_body E username password session_file w)
    as [r w1] eqn:H. revert H.
  unfold instagram_bot.login_body, os_path_exists. unfold_M.
  intros H. destruct_run H; simplify_eq; count_steps.
Qed.

Lemma is_logged_in_quiet : quiet (is_logged_in E).
Proof.
  intros w. destruct (is_logged_in E w) as [r w1] eqn:H. revert H.
  unfold is_logged_in. unfold_M.
  intros H. destruct_run H; simplify_eq; count_steps.
Qed.

Lemma get_profile_pic_quiet (save_path : string) :
  quiet (get_profile_pic E username password session_file save_path).
Proof.
  assert (Hbody : quiet (get_profile_pic_body E username password
                           session_file save_path)).
  { intros w.
    destruct (get_profile_pic_body E username password session_file
                save_path w) as [r w1] eqn:H. revert H.
    unfold get_profile_pic_body, _ensure_login.
    pose proof login_quiet as Hl.
    set (lg := login E username password session_file) in *. clearbody lg.
    unfold_M. intros H. destruct_run H; simplify_eq; counted lg Hl;
      count_steps. }
  intros w. unfold get_profile_pic. unfold mbind, M_bind, bind.
  pose proof (retry_quiet 2 (Qc_of_Z 2) default_backoff _ Hbody w) as Hr.
  by destruct (retry E 2 (Qc_of_Z 2) default_backoff _ w) as [[r|e] w1].
Qed.

(** A call of [post_reel] uploads at most twice. *)
Lemma post_reel_uploads (video_path : string) (caption : str)
    (w : World X) :
  spec.uploads_within 2 w
    (post_reel E username password session_file video_path caption w).2.
Proof.
  assert (Hblock : forall w0,
    spec.uploads_within 1 w0 (upload_block E video_path caption w0).2).
  { intros w0. rewrite upload_block_spec.
    destruct (files E (ext w0) !! video_path) as [size|]; [|count_steps].
    destruct (spec.size_ceiling <? size)%Z; [count_steps|].
    unfold spec.upload. cbn [ext emit with_ext].
    destruct (client_clip_upload E video_path caption (ext w0))
      as [[m|e] x']; [count_steps|].
    destruct (is_Exception e); count_steps. }
  assert (Hbody : forall w0,
    spec.uploads_within 1 w0
      (post_reel_body E username password session_file video_path
         caption w0).2).
  { intros w0.
    destruct (post_reel_body E username password session_file video_path
                caption w0) as [r w1] eqn:H. revert H.
    unfold post_reel_body, _ensure_login.
    pose proof login_quiet as Hl.
    set (lg := login E username password session_file) in *. clearbody lg.
    set (ub := upload_block E video_path caption) in *. clearbody ub.
    unfold_M. intros H.
    destruct_run H; simplify_eq; counted lg Hl; counted ub Hblock;
      count_steps. }
  unfold post_reel, retry.
  set (attempt := post_reel_body E username password session_file
                    video_path caption) in *.
  clearbody attempt.
  change (Z.to_nat 2) with 2%nat. cbn [retry_loop]. unfold_M. simpl.
  pose proof (Hbody w) as H1.
  destruct (attempt w) as [[media|e] w1]; [count_steps|].
  destruct (is_Exception e); [|count_steps]. simpl.
  match goal with |- context [attempt ?w0] => pose proof (Hbody w0) as H2 end.
  destruct (attempt _) as [[media|e'] w3]; [count_steps|].
  destruct (is_Exception e'); count_steps.
Qed.

End Bot.

Section Content.
Variable cache_ttl : Z.

Lemma get_nasa_apod_quiet : quiet (get_nasa_apod E cache_ttl).
Proof.
  intros w. rewrite get_nasa_apod_unfold.
  destruct (get_nasa_apod_body E cache_ttl w) as [r w1] eqn:H. revert H.
  unfold get_nasa_apod_body, _get_cached, _set_cache. unfold_M.
  intros H. destruct_run H; simplify_eq; count_steps.
Qed.

Lemma get_trending_space_news_quiet :
  quiet (get_trending_space_news E cache_ttl).
Proof.
  intros w. rewrite get_trending_space_news_unfold.
  destruct (get_trending_space_news_body E cache_ttl w) as [r w1] eqn:H.
  revert H.
  unfold get_trending_space_news_body, _get_cached, _set_cache. unfold_M.
  intros H. destruct_run H; simplify_eq; count_steps.
Qed.

Lemma get_content_for_reel_quiet : quiet (get_content_for_reel E cache_ttl).
Proof.
  intros w.
  destruct (get_content_for_reel E cache_ttl w) as [r w1] eqn:H. revert H.
  unfold get_content_for_reel, getitem.
  pose proof get_nasa_apod_quiet as Ha.
  pose proof get_trending_space_news_quiet as Hn.
  set (apod := get_nasa_apod E cache_ttl) in *.
  set (news := get_trending_space_news E cache_ttl) in *.
  clearbody apod news. unfold_M. intros H.
  destruct_run H; simplify_eq; counted apod Ha; counted news Hn;
    count_steps.
Qed.

Lemma generate_caption_quiet (content_type : string) :
  quiet (generate_caption E cache_ttl content_type).
Proof.
  intros w.
  destruct (generate_caption E cache_ttl content_type w) as [r w1] eqn:H.
  revert H. unfold generate_caption.
  pose proof get_nasa_apod_quiet as Ha.
  pose proof get_trending_space_news_quiet as Hn.
  set (apod := get_nasa_apod E cache_ttl) in *.
  set (news := get_trending_space_news E cache_ttl) in *.
  clearbody apod news. unfold_M. intros H.
  destruct_run H; simplify_eq; counted apod Ha; counted news Hn;
    count_steps.
Qed.

End Content.

Lemma validate_video_file_quiet (file_path : string) (min_size_mb : Qc) :
  quiet (validate_video_file E file_path min_size_mb).
Proof.
  intros w.
  destruct (validate_video_file E file_path min_size_mb w) as [r w1] eqn:H.
  revert H.
  unfold validate_video_file, get_file_size_mb, os_path_exists,
    os_path_getsize.
  unfold_M. intros H. destruct_run H; simplify_eq; count_steps.
Qed.

End Quiet.

Section Scheduler.
Context {X : Type} (E : External X).
Variables (INSTAGRAM_USERNAME INSTAGRAM_PASSWORD : string).
Variable PROFILE_PIC_PATH : string.

#[local] Abbreviation _initialize_components :=
  (scheduler._initialize_components E INSTAGRAM_USERNAME INSTAGRAM_PASSWORD
     PROFILE_PIC_PATH).
#[local] Abbreviation post_daily_reel_body :=
  (scheduler.post_daily_reel_body E INSTAGRAM_USERNAME INSTAGRAM_PASSWORD
     PROFILE_PIC_PATH).
#[local] Abbreviation post_daily_reel :=
  (scheduler.post_daily_reel E INSTAGRAM_USERNAME INSTAGRAM_PASSWORD
     PROFILE_PIC_PATH).
#[local] Abbreviation ready w :=
  (sched_bot w && sched_content_gen w && sched_reel_gen w).

Lemma initialize_components_quiet (w : World X) :
  spec.uploads_within 0 w (_initialize_components w).2.
Proof.
  destruct (_initialize_components w) as [r w1] eqn:H. revert H.
  unfold scheduler._initialize_components, config.validate,
    scheduler._ensure_profile_picture, config.USE_LOGO, config.LOGO_PATH.
  unfold_M. intros H. simpl in H.
  destruct_run H; simplify_eq; count_steps.
Qed.

Lemma post_daily_reel_body_uploads (w : World X) :
  spec.uploads_within (if ready w then 2 else 0) w
    (post_daily_reel_body w).2.
Proof.
  destruct (post_daily_reel_body w) as [r w1] eqn:H. revert H.
  unfold scheduler.post_daily_reel_body.
  pose proof initialize_components_quiet as Hic.
  pose proof (scheduler_more.initialize_components_false E
                INSTAGRAM_USERNAME INSTAGRAM_PASSWORD PROFILE_PIC_PATH)
    as Hfalse.
  pose proof (is_logged_in_quiet E) as Hil.
  pose proof (login_quiet E INSTAGRAM_USERNAME INSTAGRAM_PASSWORD
                "instagram_session.json") as Hlg.
  pose proof (get_content_for_reel_quiet E 3600) as Hcr.
  pose proof (generate_caption_quiet E 3600 "apod") as Hgc.
  assert (Hvv : forall file_path min_size_mb w0,
    spec.uploads_within 0 w0
      (validate_video_file E file_path min_size_mb w0).2)
    by (intros; apply validate_video_file_quiet).
  assert (Hbp : forall video_path caption w0,
    spec.uploads_within 2 w0
      (bot_post_reel E INSTAGRAM_USERNAME INSTAGRAM_PASSWORD video_path
         caption w0).2)
    by (intros; apply post_reel_uploads).
  fold (scheduler.bot_is_logged_in E) in Hil.
  fold (bot_login E INSTAGRAM_USERNAME INSTAGRAM_PASSWORD) in Hlg.
  fold (content_gen_get_content_for_reel E) in Hcr.
  fold (content_gen_generate_caption E) in Hgc.
  set (ic := _initialize_components) in *.
  set (il := scheduler.bot_is_logged_in E) in *.
  set (lg := bot_login E INSTAGRAM_USERNAME INSTAGRAM_PASSWORD) in *.
  set (cr := content_gen_get_content_for_reel E) in *.
  set (gc := content_gen_generate_caption E) in *.
  set (vv := validate_video_file E) in *.
  set (bp := bot_post_reel E INSTAGRAM_USERNAME INSTAGRAM_PASSWORD) in *.
  clearbody ic il lg cr gc vv bp. unfold_M. intros H.
  destruct (ready w) eqn:Hr; simpl in H.
  - destruct_run H; simplify_eq;
      counted il Hil; counted lg Hlg; counted cr Hcr; counted gc Hgc;
      repeat match goal with
             | He : vv ?p ?m ?w0 = (_, _) |- _ =>
                 let Hn := fresh "Hn" in
                 pose proof (Hvv p m w0) as Hn; rewrite He in Hn; clear He
             | He : bp ?p ?c ?w0 = (_, _) |- _ =>
                 let Hn := fresh "Hn" in
                 pose proof (Hbp p c w0) as Hn; rewrite He in Hn; clear He
             end;
      count_steps.
  - pose proof (Hic w) as Hn.
    destruct (ic w) as [[b|e] w0] eqn:Hinit; simpl in H.
    + apply Hfalse in Hinit as ->. simpl in H. simplify_eq. count_steps.
    + simplify_eq. count_steps.
Qed.

(** X24: a run of [post_daily_reel] calls [clip_upload] at most twice,
    whatever the service answers and however the run ends: only
    [post_reel] uploads, and its decorator allows it two attempts.  A
    run that starts without one of the three components, as every run
    of a scheduler that the code has built does, does not upload at
    all. *)
Theorem post_daily_reel_uploads_at_most_twice (w : World X) :
  (spec.uploads (trace w) <= spec.uploads (trace (post_daily_reel w).2)
   <= spec.uploads (trace w)
      + if sched_bot w && sched_content_gen w && sched_reel_gen w
        then 2 else 0)%nat.
Proof.
  destruct (post_daily_reel w) as [r w1] eqn:H. revert H.
  unfold scheduler.post_daily_reel.
  pose proof post_daily_reel_body_uploads as Hbody.
  set (body := post_daily_reel_body) in *. clearbody body.
  unfold_M. intros H.
  destruct_run H; simplify_eq; counted body Hbody;
    cbn [sched_bot sched_content_gen sched_reel_gen emit with_ext] in *;
    destruct (sched_bot w && sched_content_gen w && sched_reel_gen w);
    count_steps.
Qed.

End Scheduler.

End upload_bound.
